(** * File Diff plugin: conflict pairing, review workflow, indexed loader

    A shallow embedding of [src/main.ts] (class [FileDiffPlugin]) and the
    properties of its core: [findSyncConflicts], the
    [find-sync-conflicts-and-merge] command, the [compare-indexed-N]
    commands, [showRiskyActionModal] and [openDifferencesView].

    JavaScript strings are modelled as [string]; every character the code
    inspects (the regular expression, the marker) is ASCII, so matching on
    the bytes of a UTF-8 name agrees with matching on its UTF-16 units. *)

From Stdlib Require Import String Ascii List Bool Arith Lia DecimalString.
From Stdlib Require Import DecimalNat DecimalFacts.
From stdpp Require Import base option gmap strings.
Import ListNotations.

Local Open Scope string_scope.
Set Warnings "-register-all".
#[local] Arguments String.append !_ _ / : simpl nomatch.

(** ** JavaScript string primitives used by the plugin *)

Module JsString.

(** [s.includes(needle)] *)
Fixpoint includes (needle s : string) : bool :=
  String.prefix needle s
  || match s with
     | EmptyString => false
     | String _ s' => includes needle s'
     end.

(** Every character of [s] satisfies [p]. *)
Fixpoint all_chars (p : ascii -> bool) (s : string) : bool :=
  match s with
  | EmptyString => true
  | String c s' => p c && all_chars p s'
  end.

(** The first character of [s], if any, satisfies [p]. *)
Definition starts_with_char (p : ascii -> bool) (s : string) : bool :=
  match s with
  | EmptyString => false
  | String c _ => p c
  end.

End JsString.

(** ** Regular expressions, as far as the plugin uses them

    A matcher is tried at the start of a string and yields the text left
    after the match.  The only quantifiers in the source's pattern are
    fixed counts and one trailing greedy [+]; the greedy [+] is the last
    item of the pattern, so the first alternative JavaScript's backtracking
    matcher tries (the longest run) is the one it returns. *)

Module Regex.

Definition matcher := string -> option string.

(** [\d] *)
Definition digit (c : ascii) : bool :=
  (48 <=? nat_of_ascii c)%nat && (nat_of_ascii c <=? 57)%nat.

(** [A-Z] *)
Definition upper (c : ascii) : bool :=
  (65 <=? nat_of_ascii c)%nat && (nat_of_ascii c <=? 90)%nat.

(** [[A-Z0-9]] *)
Definition upper_alnum (c : ascii) : bool := upper c || digit c.

(** One character of a class. *)
Definition one (p : ascii -> bool) : matcher := fun s =>
  match s with
  | String c r => if p c then Some r else None
  | EmptyString => None
  end.

(** A literal run of characters. *)
Fixpoint lit (w : string) : matcher := fun s =>
  match w with
  | EmptyString => Some s
  | String c w' =>
      match s with
      | String d s' => if Ascii.eqb c d then lit w' s' else None
      | EmptyString => None
      end
  end.

(** [m{n}] *)
Fixpoint times (n : nat) (m : matcher) : matcher := fun s =>
  match n with
  | O => Some s
  | S k => match m s with
           | Some r => times k m r
           | None => None
           end
  end.

(** The text left once the longest run of [p]-characters is consumed. *)
Fixpoint skip_while (p : ascii -> bool) (s : string) : string :=
  match s with
  | String c r => if p c then skip_while p r else s
  | EmptyString => EmptyString
  end.

(** [[p]+] in final position: at least one, then as many as there are. *)
Definition plus (p : ascii -> bool) : matcher := fun s =>
  match one p s with
  | Some r => Some (skip_while p r)
  | None => None
  end.

(** Concatenation of two patterns. *)
Definition seq (a b : matcher) : matcher := fun s =>
  match a s with
  | Some r => b r
  | None => None
  end.

(** [s.replace(re, '')] for a regular expression without the [g] flag:
    the leftmost match is removed, and a string without a match is
    returned as it is. *)
Fixpoint replace_first (re : matcher) (s : string) : string :=
  match re s with
  | Some rest => rest
  | None =>
      match s with
      | EmptyString => EmptyString
      | String c s' => String c (replace_first re s')
      end
  end.

(** [re.test(s)]: the pattern matches somewhere in [s]. *)
Fixpoint test (re : matcher) (s : string) : bool :=
  match re s with
  | Some _ => true
  | None =>
      match s with
      | EmptyString => false
      | String _ s' => test re s'
      end
  end.

End Regex.

Infix "·>" := Regex.seq (at level 62, right associativity).

(** ** Files of the vault *)

Record TFolder := { folder_path : string }.

Record TFile := {
  path : string;
  name : string;
  extension : string;
  parent : option TFolder
}.

(** What [getAbstractFileByPath] hands out: a file or a folder. *)
Inductive TAbstractFile :=
| AFile (f : TFile)
| AFolder (d : TFolder).

(** [file.parent?.path ?? ""] *)
Definition parentPath (f : TFile) : string :=
  match parent f with
  | Some d => folder_path d
  | None => ""
  end.

(** The vault's [getMarkdownFiles()]: of all files of the vault, in the
    vault's order, those whose extension is [md]. *)
Definition isMarkdown (f : TFile) : bool := String.eqb (extension f) "md".

Definition getMarkdownFiles (vault : list TFile) : list TFile :=
  List.filter isMarkdown vault.

(** ** [findSyncConflicts] *)

Record ConflictPair := {
  originalFile : TFile;
  syncConflictFile : TFile
}.

(** [/\.sync-conflict-\d{8}-\d{6}-[A-Z0-9]+/] *)
Definition syncConflictTag : Regex.matcher :=
  Regex.lit ".sync-conflict-" ·> Regex.times 8 (Regex.one Regex.digit)
  ·> Regex.lit "-" ·> Regex.times 6 (Regex.one Regex.digit)
  ·> Regex.lit "-" ·> Regex.plus Regex.upper_alnum.

(** [file.name.replace(/\.sync-conflict-.../, '')] *)
Definition originalFileName (fileName : string) : string :=
  Regex.replace_first syncConflictTag fileName.

(** [files.find((f) => f.name === originalFileName && ...)] *)
Definition findOriginal (files : list TFile) (file : TFile) : option TFile :=
  List.find
    (fun f => String.eqb (name f) (originalFileName (name file))
              && String.eqb (parentPath file) (parentPath f))
    files.

(** The body of the [for (const file of files)] loop; [syncConflicts] is
    the array being filled, [push] appends at its end. *)
Definition visitFile (files : list TFile) (syncConflicts : list ConflictPair)
    (file : TFile) : list ConflictPair :=
  if JsString.includes "sync-conflict" (name file) then
    match findOriginal files file with
    | Some original =>
        syncConflicts
        ++ [ {| originalFile := original; syncConflictFile := file |} ]
    | None => syncConflicts
    end
  else syncConflicts.

Definition findSyncConflicts (vault : list TFile) : list ConflictPair :=
  let files := getMarkdownFiles vault in
  fold_left (visitFile files) files [].


(** ** Values the commands handle *)

(** What [JSON.parse] returns, and [undefined] for a property that is not
    there.  A number is carried as the text JavaScript prints for it. *)
Inductive JSValue :=
| JUndefined
| JNull
| JBool (b : bool)
| JNumber (text : string)
| JString (s : string)
| JArray (items : list JSValue)
| JObject (fields : gmap string JSValue).

(** Whether [`${v}`] yields a text.  A parsed object with a key [toString]
    of its own does not: the key hides the method of the prototype, its
    value is not a function, and [valueOf] hands back the object, so the
    conversion throws a [TypeError]; an array prints its entries, and so
    fails where one of them does. *)
Fixpoint printable (v : JSValue) : bool :=
  match v with
  | JArray items => forallb printable items
  | JObject fields =>
      match fields !! "toString" with
      | Some _ => false
      | None => true
      end
  | _ => true
  end.

(** [`${v}`], for a value that is [printable]. *)
Fixpoint toString (v : JSValue) : string :=
  match v with
  | JUndefined => "undefined"
  | JNull => "null"
  | JBool true => "true"
  | JBool false => "false"
  | JNumber text => text
  | JString s => s
  | JArray items =>
      String.concat ","
        (List.map (fun x => match x with
                            | JUndefined | JNull => ""
                            | _ => toString x
                            end) items)
  | JObject _ => "[object Object]"
  end.

Record Error := { message : string }.

(** [v.prop]: reading a property of [null] or [undefined] throws; a parsed
    object answers with the field or [undefined]; no other parsed value has
    a property of the names the plugin reads. *)
Definition getProperty (nullAccess : string -> Error) (v : JSValue)
    (prop : string) : Error + JSValue :=
  match v with
  | JUndefined | JNull => inl (nullAccess prop)
  | JObject fields => inr (default JUndefined (fields !! prop))
  | _ => inr JUndefined
  end.

(** What a statement throws or a promise is rejected with: an [Error]
    object, or any other value. *)
Inductive Thrown :=
| ErrorObject (e : Error)
| ThrownValue (v : JSValue).

Coercion ErrorObject : Error >-> Thrown.

(** [error.message] in a [catch] block: the message of an [Error]
    object, the property of any other value, which is a throw when the
    value is [null] or [undefined]. *)
Definition messageOf (nullAccess : string -> Error) (thrown : Thrown)
    : Error + JSValue :=
  match thrown with
  | ErrorObject e => inr (JString (message e))
  | ThrownValue v => getProperty nullAccess v "message"
  end.

(** How an awaited promise of the host ends when it does not resolve: it
    is rejected, or it is never settled. *)
Inductive Unresolved :=
| Rejected (reason : Thrown)
| Pending.

Inductive ViewType :=
| VIEW_TYPE_DIFFERENCES
| OtherView (type : string).

Definition ViewType_eqb (a b : ViewType) : bool :=
  match a, b with
  | VIEW_TYPE_DIFFERENCES, VIEW_TYPE_DIFFERENCES => true
  | OtherView x, OtherView y => String.eqb x y
  | _, _ => false
  end.

(** The state handed to the differences view.  The files are what the
    caller holds at run time (the [as TFile] casts check nothing); the
    callback is known by the promise it resolves, the one of the
    iteration that made it. *)
Record ViewState := {
  file1 : TAbstractFile;
  file2 : TAbstractFile;
  showMergeOption : bool;
  continueCallback : option nat
}.

Record Notice := { text : string; duration : option nat }.

(** ** The workspace and the rest of the mutable world *)

Record WorkspaceLeaf := {
  leaf_id : nat;
  leaf_type : ViewType;
  leaf_state : option ViewState
}.

(** The leaves in the order they were created, the identifier the next
    new leaf gets, and the leaf that has the focus. *)
Record Workspace := {
  leaves : list WorkspaceLeaf;
  next_id : nat;
  active_leaf : option nat
}.

(** [workspace.detachLeavesOfType(type)] closes every leaf of the type. *)
Definition detachLeavesOfType (type : ViewType) (ws : Workspace) : Workspace :=
  let kept :=
    List.filter (fun l => negb (ViewType_eqb (leaf_type l) type)) (leaves ws) in
  {| leaves := kept;
     next_id := next_id ws;
     active_leaf :=
       match active_leaf ws with
       | Some a => if existsb (fun l => leaf_id l =? a)%nat kept
                   then Some a else None
       | None => None
       end |}.

(** [workspace.getLeaf(true)] makes a new, empty leaf and returns it. *)
Definition getLeaf (ws : Workspace) : nat * Workspace :=
  (next_id ws,
   {| leaves := leaves ws
                ++ [ {| leaf_id := next_id ws;
                        leaf_type := OtherView "empty";
                        leaf_state := None |} ];
      next_id := S (next_id ws);
      active_leaf := active_leaf ws |}).

(** [leaf.setViewState({ type, active: true, state })] *)
Definition setViewState (leaf : nat) (type : ViewType) (state : ViewState)
    (ws : Workspace) : Workspace :=
  {| leaves :=
       List.map (fun l => if (leaf_id l =? leaf)%nat
                          then {| leaf_id := leaf_id l;
                                  leaf_type := type;
                                  leaf_state := Some state |}
                          else l) (leaves ws);
     next_id := next_id ws;
     active_leaf := Some leaf |}.

(** [workspace.revealLeaf(leaf)] *)
Definition revealLeaf (leaf : nat) (ws : Workspace) : Workspace :=
  {| leaves := leaves ws; next_id := next_id ws; active_leaf := Some leaf |}.

(** What a command can change: the browser's [localStorage], the
    workspace, the notices shown so far (oldest first), and the states
    [openDifferencesView] was called with so far (oldest first). *)
Record World := {
  localStorage : gmap string string;
  workspace : Workspace;
  notices : list Notice;
  opened : list ViewState
}.

(** Where a command stands when nothing more can run: it returned, it
    threw (an [async] function's promise rejects), or it waits at an
    [await] for a promise nobody settles. *)
Inductive Outcome (A : Type) :=
| Returned (a : A)
| Threw (e : Thrown)
| Suspended.
Arguments Returned {A} a.
Arguments Threw {A} e.
Arguments Suspended {A}.

Definition M (A : Type) : Type := World -> Outcome A * World.

Definition ret {A} (a : A) : M A := fun w => (Returned a, w).

Definition bind {A B} (m : M A) (k : A -> M B) : M B := fun w =>
  match m w with
  | (Returned a, w') => k a w'
  | (Threw e, w') => (Threw e, w')
  | (Suspended, w') => (Suspended, w')
  end.

Definition throw {A} (e : Thrown) : M A := fun w => (Threw e, w).

Definition suspend {A} : M A := fun w => (Suspended, w).

(** [try { m } catch (error) { handler }] *)
Definition try_catch {A} (m : M A) (handler : Thrown -> M A) : M A := fun w =>
  match m w with
  | (Threw e, w') => handler e w'
  | r => r
  end.

(** A call that returns or throws an [Error] object. *)
Definition settled {A} (r : Error + A) : M A :=
  match r with
  | inl e => throw e
  | inr a => ret a
  end.

(** [await] of a promise of the host: its value, its reason thrown, or
    no end. *)
Definition awaited {A} (r : Unresolved + A) : M A :=
  match r with
  | inl (Rejected reason) => throw reason
  | inl Pending => suspend
  | inr a => ret a
  end.

Notation "x <- m ;; k" := (bind m (fun x => k))
  (at level 100, m at next level, right associativity).
Notation "m ;; k" := (bind m (fun _ => k))
  (at level 100, right associativity).

(** [localStorage.getItem(key)] and the test [if (!item)]: a missing item
    is [null], and [null] and the empty string are falsy. *)
Definition getItem (key : string) : M (option string) := fun w =>
  (Returned (localStorage w !! key), w).

Definition falsy (item : option string) : bool :=
  match item with
  | None => true
  | Some s => String.eqb s ""
  end.

Definition setItem (key value : string) : M unit := fun w =>
  (Returned tt,
   {| localStorage := <[key := value]> (localStorage w);
      workspace := workspace w;
      notices := notices w;
      opened := opened w |}).

(** [new Notice(text, duration)] *)
Definition newNotice (text : string) (duration : option nat) : M unit := fun w =>
  (Returned tt,
   {| localStorage := localStorage w;
      workspace := workspace w;
      notices := notices w ++ [ {| text := text; duration := duration |} ];
      opened := opened w |}).

(** [await sleep(ms)]: the command is delayed and goes on. *)
Definition sleep (ms : nat) : M unit := ret tt.

(** [openDifferencesView(state)]: the function is [async] but awaits
    nothing, so its body runs at the call. *)
Definition openDifferencesView (state : ViewState) : M unit := fun w =>
  let ws1 := detachLeavesOfType VIEW_TYPE_DIFFERENCES (workspace w) in
  let (leaf, ws2) := getLeaf ws1 in
  let ws3 := setViewState leaf VIEW_TYPE_DIFFERENCES state ws2 in
  let ws4 := revealLeaf leaf ws3 in
  (Returned tt,
   {| localStorage := localStorage w;
      workspace := ws4;
      notices := notices w;
      opened := opened w ++ [state] |}).

(** ** The host and the user, as one command sees them

    What the command reads or awaits but does not decide: the vault, the
    file adapter, [JSON.parse], the error a read of [null.prop] throws,
    the error the conversion of an object to a text throws, what the user
    does with the risk warning, and what the differences view passes to
    the continue callback of each iteration. *)

(** What [RiskyActionModal] does with [onAccept]: calls it with [null],
    calls it with an error, or is closed without calling it. *)
Inductive ModalOutcome :=
| Accepted
| Failed (e : Error)
| Dismissed.

Record Host := {
  vaultFiles : list TFile;
  adapterRead : string -> Unresolved + string;
  jsonParse : string -> Error + JSValue;
  nullAccess : string -> Error;
  toPrimitiveError : Error;
  getAbstractFileByPath : JSValue -> option TAbstractFile;
  riskyActionModal : ModalOutcome;
  continuation : nat -> option bool
}.

Definition fileDiffMergeWarningKey : string := "file-diff-merge-warning".

Definition DIFF_SPEC_BASE_PATH : string := "temp/obsidian-diff/diff-spec-".

(** [`${i}`] for a loop counter. *)
Definition indexText (i : nat) : string :=
  NilZero.string_of_uint (Nat.to_uint i).

Section Plugin.

Variable host : Host.

(** [showRiskyActionModal()]: the promise resolves after [onAccept(null)]
    stored the flag, rejects after [onAccept(e)], and is never settled
    when [onAccept] is not called. *)
Definition showRiskyActionModal : M unit :=
  match riskyActionModal host with
  | Accepted =>
      setItem fileDiffMergeWarningKey "true";;
      sleep 50;;
      ret tt
  | Failed e => throw e
  | Dismissed => suspend
  end.

(** The warning shown "when this option is selected for the first time"
    (lines 93-98, and 62-67): [true] when the callback goes on, [false]
    when it takes the [return] of line 96. *)
Definition acknowledgmentGate : M bool :=
  item <- getItem fileDiffMergeWarningKey;;
  if falsy item then
    showRiskyActionModal;;
    item' <- getItem fileDiffMergeWarningKey;;
    if falsy item' then ret false else ret true
  else ret true.

(** [await continuePromise] of iteration [i]. *)
Definition awaitContinue (i : nat) : M bool :=
  match continuation host i with
  | Some shouldContinue => ret shouldContinue
  | None => suspend
  end.

(** The state the review loop opens for a pair in iteration [i]. *)
Definition reviewState (i : nat) (syncConflict : ConflictPair) : ViewState :=
  {| file1 := AFile (originalFile syncConflict);
     file2 := AFile (syncConflictFile syncConflict);
     showMergeOption := true;
     continueCallback := Some i |}.

(** [for await (const syncConflict of syncConflicts) { ... }], from
    iteration [i] on. *)
Fixpoint reviewLoop (i : nat) (syncConflicts : list ConflictPair) : M unit :=
  match syncConflicts with
  | [] => ret tt
  | syncConflict :: rest =>
      openDifferencesView (reviewState i syncConflict);;
      shouldContinue <- awaitContinue i;;
      if shouldContinue then reviewLoop (S i) rest else ret tt
  end.

(** The callback of the command [find-sync-conflicts-and-merge]. *)
Definition findSyncConflictsAndMerge : M unit :=
  proceed <- acknowledgmentGate;;
  if proceed then
    reviewLoop 0 (findSyncConflicts (vaultFiles host))
  else ret tt.

(** [`${this.DIFF_SPEC_BASE_PATH}${i}.json`] *)
Definition specPath (i : nat) : string :=
  DIFF_SPEC_BASE_PATH ++ indexText i ++ ".json".

(** [`File Diff Index ${i}: `], the start of every notice. *)
Definition indexPrefix (i : nat) : string :=
  "File Diff Index " ++ indexText i ++ ": ".

(** [`${v}`] in a notice: the text, or the throw of the conversion. *)
Definition templateText (v : JSValue) : M string :=
  if printable v then ret (toString v) else throw (toPrimitiveError host).

(** The [try] block of the callback of [compare-indexed-i].  The
    [console] output is left out. *)
Definition compareIndexedBody (i : nat) : M unit :=
  newNotice (indexPrefix i ++ "Loading spec...") None;;
  specContent <- awaited (adapterRead host (specPath i));;
  spec <- settled (jsonParse host specContent);;
  newNotice (indexPrefix i ++ "Files loaded") None;;
  path1 <- settled (getProperty (nullAccess host) spec "file1");;
  path2 <- settled (getProperty (nullAccess host) spec "file2");;
  match getAbstractFileByPath host path1 with
  | None =>
      shown <- templateText path1;;
      newNotice (indexPrefix i ++ "ERROR - File 1 not found: " ++ shown)
        (Some 5000)
  | Some file1 =>
      match getAbstractFileByPath host path2 with
      | None =>
          shown <- templateText path2;;
          newNotice (indexPrefix i ++ "ERROR - File 2 not found: " ++ shown)
            (Some 5000)
      | Some file2 =>
          newNotice (indexPrefix i ++ "Opening diff view...") None;;
          openDifferencesView {| file1 := file1;
                                 file2 := file2;
                                 showMergeOption := false;
                                 continueCallback := None |};;
          newNotice (indexPrefix i ++ "Success!") (Some 3000)
      end
  end.

(** The [catch] block: [error] is whatever was thrown, and reading its
    message or printing it can throw in turn. *)
Definition compareIndexedCatch (i : nat) (error : Thrown) : M unit :=
  errorMessage <- settled (messageOf (nullAccess host) error);;
  shown <- templateText errorMessage;;
  newNotice (indexPrefix i ++ "ERROR - " ++ shown) (Some 5000).

(** The callback of the command [compare-indexed-i]. *)
Definition compareIndexed (i : nat) : M unit :=
  try_catch (compareIndexedBody i) (compareIndexedCatch i).

End Plugin.

(** The ten commands of the loop [for (let i = 0; i < 10; i++)]. *)
Definition indexedCommands (host : Host) : list (string * M unit) :=
  List.map (fun i => ("compare-indexed-" ++ indexText i, compareIndexed host i))
    (seq 0 10).

(** ** The commands [compare] and [compare-and-merge]; [onunload] *)

#[global] Instance TFolder_eq_dec : EqDecision TFolder.
Proof. solve_decision. Defined.

#[global] Instance TFile_eq_dec : EqDecision TFile.
Proof. solve_decision. Defined.

(** What [SelectFileModal] does with [onChoose(e, f)]: calls it with a
    file or with [undefined] and no error, calls it with an error, or is
    closed without calling it. *)
Inductive SelectOutcome :=
| Chosen (f : option TFile)
| SelectFailed (e : Error)
| SelectDismissed.

(** What the two commands read besides the host: the file open in the
    editor, [workspace.getActiveFile()], and what the user does with the
    list of files the dialog is given. *)
Record Editor := {
  getActiveFile : option TFile;
  selectFileModal : list TFile -> SelectOutcome
}.

(** [selectableFiles.remove(activeFile)]: the array without the entries
    that are [activeFile].  A file of the vault is known by its fields,
    the path among them, which no two files of a vault share. *)
Definition arrayRemove (target : TFile) (files : list TFile) : list TFile :=
  List.filter (fun f => negb (bool_decide (f = target))) files.

Section OtherCommands.

Variable host : Host.
Variable editor : Editor.

(** [showSelectOtherFileModal({ selectableFiles })]: the promise resolves
    with the file of [onChoose(null, f)] and rejects with the error of
    [onChoose(e, f)]. *)
Definition showSelectOtherFileModal (selectableFiles : list TFile)
    : M (option TFile) :=
  match selectFileModal editor selectableFiles with
  | Chosen f => ret f
  | SelectFailed e => throw e
  | SelectDismissed => suspend
  end.

(** [getFileToCompare(activeFile)]; [vault.getFiles()] are the files of
    the vault. *)
Definition getFileToCompare (activeFile : TFile) : M (option TFile) :=
  let selectableFiles := arrayRemove activeFile (vaultFiles host) in
  showSelectOtherFileModal selectableFiles.

(** [getFileToCompare(activeFile).then(compareFile => ...)] of the command
    [compare]. *)
Definition compareTask (activeFile : TFile) : M unit :=
  compareFile <- getFileToCompare activeFile;;
  match compareFile with
  | None => ret tt
  | Some compareFile =>
      openDifferencesView {| file1 := AFile activeFile;
                             file2 := AFile compareFile;
                             showMergeOption := false;
                             continueCallback := None |}
  end.

(** [proceedWithMerge()] of the command [compare-and-merge]; its first
    lines are those of the acknowledgment gate. *)
Definition proceedWithMerge (activeFile : TFile) : M unit :=
  proceed <- acknowledgmentGate host;;
  if proceed then
    compareFile <- getFileToCompare activeFile;;
    match compareFile with
    | None => ret tt
    | Some compareFile =>
        openDifferencesView {| file1 := AFile activeFile;
                               file2 := AFile compareFile;
                               showMergeOption := true;
                               continueCallback := None |}
    end
  else ret tt.

(** A [checkCallback]: what it returns, and the work it starts without
    waiting for it. *)
Definition checkCallback (work : TFile -> M unit) (checking : bool)
    : bool * M unit :=
  match getActiveFile editor with
  | None => (false, ret tt)
  | Some activeFile =>
      (true, if checking then ret tt else work activeFile)
  end.

Definition compareCommand : bool -> bool * M unit :=
  checkCallback compareTask.

Definition compareAndMergeCommand : bool -> bool * M unit :=
  checkCallback proceedWithMerge.

End OtherCommands.

(** [onunload()] *)
Definition onunload : M unit := fun w =>
  (Returned tt,
   {| localStorage := localStorage w;
      workspace := detachLeavesOfType VIEW_TYPE_DIFFERENCES (workspace w);
      notices := notices w;
      opened := opened w |}).

(** The identifiers [onload] registers commands under, in its order. *)
Definition commandIds : list string :=
  ["compare"; "compare-and-merge"; "find-sync-conflicts-and-merge"]
  ++ List.map (fun i => "compare-indexed-" ++ indexText i) (seq 0 10).

(** ** The naming pattern, in the words of the specification

    [.sync-conflict-<8 digits>-<6 digits>-<uppercase alphanumeric token>] *)
Definition conflictTag (m : string) : Prop :=
  exists date time token,
    m = ".sync-conflict-" ++ date ++ "-" ++ time ++ "-" ++ token
    /\ String.length date = 8 /\ JsString.all_chars Regex.digit date = true
    /\ String.length time = 6 /\ JsString.all_chars Regex.digit time = true
    /\ token <> ""
    /\ JsString.all_chars Regex.upper_alnum token = true.

(** A name carries the tag somewhere. *)
Definition hasConflictTag (n : string) : Prop :=
  exists p m r, n = p ++ m ++ r /\ conflictTag m.

(** ** Notions the statements use *)

(** The world after [openDifferencesView state]. *)
Definition viewOpened (state : ViewState) (w : World) : World :=
  snd (openDifferencesView state w).

(** The states the loop opens for a queue when it starts at iteration [i]. *)
Definition reviewStatesFrom (i : nat) (queue : list ConflictPair)
    : list ViewState :=
  imap (fun j => reviewState (i + j)) queue.

(** The leaves that show a differences view. *)
Definition differencesLeaves (ws : Workspace) : list WorkspaceLeaf :=
  List.filter (fun l => ViewType_eqb (leaf_type l) VIEW_TYPE_DIFFERENCES)
    (leaves ws).

(** Leaf identifiers are handed out in increasing order. *)
Definition wfWorkspace (ws : Workspace) : Prop :=
  Forall (fun l => leaf_id l < next_id ws) (leaves ws).

(** The world with more notices shown and nothing else changed. *)
Definition noticed (more : list Notice) (w : World) : World :=
  {| localStorage := localStorage w;
     workspace := workspace w;
     notices := (notices w ++ more)%list;
     opened := opened w |}.

Definition loadingNotice (i : nat) : Notice :=
  {| text := indexPrefix i ++ "Loading spec..."; duration := None |}.

Definition loadedNotice (i : nat) : Notice :=
  {| text := indexPrefix i ++ "Files loaded"; duration := None |}.

(** The notice of a path that resolves to nothing; [side] is [1] or [2]. *)
Definition fileNotFoundNotice (i : nat) (side : string) (path : JSValue)
    : Notice :=
  {| text := indexPrefix i ++ "ERROR - File " ++ side ++ " not found: "
             ++ toString path;
     duration := Some 5000 |}.

(** The notice of the [catch] block. *)
Definition errorNotice (i : nat) (error : Error) : Notice :=
  {| text := indexPrefix i ++ "ERROR - " ++ message error;
     duration := Some 5000 |}.


(** [null] and [undefined], the values without properties. *)
Definition isNullish (v : JSValue) : bool :=
  match v with
  | JUndefined | JNull => true
  | _ => false
  end.

(** A parsed spec has no field [prop]. *)
Definition lacksField (spec : JSValue) (prop : string) : Prop :=
  match spec with
  | JObject fields => fields !! prop = None
  | _ => True
  end.

(** A marked file has an original among [files]. *)
Definition hasOriginal (files : list TFile) (file : TFile) : bool :=
  match findOriginal files file with
  | Some _ => true
  | None => false
  end.

(** Whatever the world a piece of the plugin is run in, the world it
    leaves is [R]-related to it. *)
Definition keeps (R : World -> World -> Prop) {A : Type} (m : M A) : Prop :=
  forall w, R w (snd (m w)).

(** [localStorage] is as it was, or differs by the stored flag. *)
Definition storageUpToFlag (w w' : World) : Prop :=
  localStorage w' = localStorage w
  \/ localStorage w' = <[fileDiffMergeWarningKey := "true"]> (localStorage w).

(** The views opened since are all of the kind [P]. *)
Definition openedOnly (P : ViewState -> Prop) (w w' : World) : Prop :=
  exists more, opened w' = (opened w ++ more)%list /\ Forall P more.

(** The notices shown since all start with [prefix]. *)
Definition noticedOnly (prefix : string) (w w' : World) : Prop :=
  exists more,
    notices w' = (notices w ++ more)%list
    /\ Forall (fun n => exists rest, text n = prefix ++ rest) more.

(** A view for looking only: no merge option, no continue callback. *)
Definition readOnlyView (state : ViewState) : Prop :=
  showMergeOption state = false /\ continueCallback state = None.

(** The worlds after opening the views of [states] one after the other. *)
Definition viewsOpened (states : list ViewState) (w : World) : World :=
  fold_left (fun w state => viewOpened state w) states w.

(** The leaves that show something else than a differences view. *)
Definition otherLeaves (ws : Workspace) : list WorkspaceLeaf :=
  leaves (detachLeavesOfType VIEW_TYPE_DIFFERENCES ws).

(** ** Sample vaults, hosts and worlds *)

(** A marked name that ends in a tag, as the external tool writes it
    for a markdown file: the tag stands before the extension. *)
Definition taggedNote : string :=
  "Notes.sync-conflict-20240101-120000-ABC123.md".

(** A markdown note whose name has the marker and no tag. *)
Definition markedNote : TFile :=
  {| path := "sync-conflict notes.md";
     name := "sync-conflict notes.md";
     extension := "md";
     parent := None |}.

(** The specification's own example: the tag after the extension. *)
Definition notesFile : TFile :=
  {| path := "Notes.md"; name := "Notes.md"; extension := "md";
     parent := None |}.

Definition notesConflictFile : TFile :=
  {| path := "Notes.md.sync-conflict-20240101-120000-ABC123";
     name := "Notes.md.sync-conflict-20240101-120000-ABC123";
     extension := "sync-conflict-20240101-120000-ABC123";
     parent := None |}.

Definition note (n : string) : TFile :=
  {| path := n; name := n; extension := "md"; parent := None |}.

(** A note and two conflict copies of it. *)
Definition conflictVault : list TFile :=
  [ note "Notes.md";
    note "Notes.sync-conflict-20240101-120000-ABC123.md";
    note "Notes.sync-conflict-20240102-130000-DEF456.md" ].

Definition readError : Error :=
  {| message := "ENOENT: no such file or directory" |}.

Definition parseError : Error :=
  {| message := "Unexpected end of JSON input" |}.

Definition nullAccessError (prop : string) : Error :=
  {| message := "Cannot read properties of null (reading '" ++ prop ++ "')" |}.

Definition conversionError : Error :=
  {| message := "Cannot convert object to primitive value" |}.

Definition dialogError : Error := {| message := "dialog failed" |}.

(** A host with a vault, a user and no spec file. *)
Definition reviewHost (files : list TFile) (modal : ModalOutcome)
    (answers : nat -> option bool) : Host :=
  {| vaultFiles := files;
     adapterRead := fun _ => inl (Rejected readError);
     jsonParse := fun _ => inl parseError;
     nullAccess := nullAccessError;
     toPrimitiveError := conversionError;
     getAbstractFileByPath := fun _ => None;
     riskyActionModal := modal;
     continuation := answers |}.

(** A host with the spec files and the paths of the vault, and no user. *)
Definition specHost (read : string -> Unresolved + string)
    (parse : string -> Error + JSValue)
    (resolve : JSValue -> option TAbstractFile) : Host :=
  {| vaultFiles := [];
     adapterRead := read;
     jsonParse := parse;
     nullAccess := nullAccessError;
     toPrimitiveError := conversionError;
     getAbstractFileByPath := resolve;
     riskyActionModal := Dismissed;
     continuation := fun _ => None |}.

(** A vault where [a.md] is a file and nothing else resolves. *)
Definition onlyA (path : JSValue) : option TAbstractFile :=
  match path with
  | JString "a.md" => Some (AFile (note "a.md"))
  | _ => None
  end.

Definition emptyWorkspace : Workspace :=
  {| leaves := []; next_id := 0; active_leaf := None |}.

(** The world of a user who never accepted the warning, and of one who did. *)
Definition freshWorld : World :=
  {| localStorage := ∅; workspace := emptyWorkspace;
     notices := []; opened := [] |}.

Definition acknowledgedWorld : World :=
  {| localStorage := {[ fileDiffMergeWarningKey := "true" ]};
     workspace := emptyWorkspace; notices := []; opened := [] |}.

Definition quoted (s : string) : string :=
  String (ascii_of_nat 34) s ++ String (ascii_of_nat 34) "".

(** The text of a spec with the paths [a.md] and [b.md], and its value. *)
Definition abSpecText : string :=
  "{" ++ quoted "file1" ++ ": " ++ quoted "a.md" ++ ", "
  ++ quoted "file2" ++ ": " ++ quoted "b.md" ++ "}".

Definition abSpec : JSValue :=
  JObject {[ "file1" := JString "a.md"; "file2" := JString "b.md" ]}.

(** The text of a spec without [file1], and its value. *)
Definition file2OnlyText : string :=
  "{" ++ quoted "file2" ++ ": " ++ quoted "a.md" ++ "}".

Definition file2Only : JSValue := JObject {[ "file2" := JString "a.md" ]}.

(** [JSON.parse] on the three texts used below; the empty text is not
    JSON, and no other text is asked for. *)
Definition sampleParse (content : string) : Error + JSValue :=
  if String.eqb content abSpecText then inr abSpec
  else if String.eqb content file2OnlyText then inr file2Only
  else if String.eqb content "null" then inr JNull
  else inl parseError.

(** The adapter of a vault where the spec of index [i] has the text
    [content] and no other spec is there. *)
Definition sampleRead (i : nat) (content : string) (path : string)
    : Unresolved + string :=
  if String.eqb path (specPath i) then inr content
  else inl (Rejected readError).

Definition folder (p : string) : option TFolder := Some {| folder_path := p |}.

(** A conflict copy in the folder [a] whose original lies in the folder [b]. *)
Definition strayConflict : TFile :=
  {| path := "a/Notes.sync-conflict-20240101-120000-ABC123.md";
     name := "Notes.sync-conflict-20240101-120000-ABC123.md";
     extension := "md";
     parent := folder "a" |}.

Definition strayVault : list TFile :=
  [ {| path := "b/Notes.md"; name := "Notes.md"; extension := "md";
       parent := folder "b" |};
    strayConflict ].

(** An editor with a note open and a user who picks the first file of
    the list, if there is one. *)
Definition firstPick (activeFile : option TFile) : Editor :=
  {| getActiveFile := activeFile;
     selectFileModal := fun files => Chosen (head files) |}.

(** A host where every path resolves to the note of that name taken as
    text, and the spec of index [i] is the one of [abSpecText]. *)
Definition resolvingHost (i : nat) : Host :=
  specHost (sampleRead i abSpecText) sampleParse
    (fun path => Some (AFile (note (toString path)))).

(** The text of a spec whose first path is the folder [notes], and its
    value. *)
Definition folderSpecText : string :=
  "{" ++ quoted "file1" ++ ": " ++ quoted "notes" ++ ", "
  ++ quoted "file2" ++ ": " ++ quoted "a.md" ++ "}".

Definition folderSpec : JSValue :=
  JObject {[ "file1" := JString "notes"; "file2" := JString "a.md" ]}.

(** The text of a spec whose first path is an object with a key
    [toString], and its value. *)
Definition oddSpecText : string :=
  "{" ++ quoted "file1" ++ ": {" ++ quoted "toString" ++ ": 1}, "
  ++ quoted "file2" ++ ": " ++ quoted "a.md" ++ "}".

Definition oddSpec : JSValue :=
  JObject {[ "file1" := JObject {[ "toString" := JNumber "1" ]};
             "file2" := JString "a.md" ]}.

(** [JSON.parse] on these two texts. *)
Definition oddParse (content : string) : Error + JSValue :=
  if String.eqb content folderSpecText then inr folderSpec
  else if String.eqb content oddSpecText then inr oddSpec
  else inl parseError.

(** A vault where [notes] is a folder, [a.md] a file in it, and nothing
    else resolves. *)
Definition folderAndA (path : JSValue) : option TAbstractFile :=
  match path with
  | JString "notes" => Some (AFolder {| folder_path := "notes" |})
  | JString "a.md" => Some (AFile (note "a.md"))
  | _ => None
  end.

(** * Properties *)

(** ** Strings *)

Module JsStringFacts.
Import JsString.

Lemma append_assoc (a b c : string) : (a ++ b) ++ c = a ++ (b ++ c).
Proof. induction a as [|x a IH]; simpl; [reflexivity | now rewrite IH]. Qed.

Lemma append_empty_r (a : string) : a ++ "" = a.
Proof. induction a as [|x a IH]; simpl; congruence. Qed.

End JsStringFacts.

(** ** The matchers *)

Module RegexFacts.
Import JsString Regex JsStringFacts.

Lemma lit_append (w s : string) : lit w (w ++ s) = Some s.
Proof.
  induction w as [|c w IH]; simpl; [reflexivity|].
  now rewrite Ascii.eqb_refl.
Qed.

Lemma lit_inv (w s r : string) : lit w s = Some r -> s = w ++ r.
Proof.
  revert s. induction w as [|c w IH]; intros s H; simpl in *.
  - congruence.
  - destruct s as [|d s]; [discriminate|].
    destruct (Ascii.eqb_spec c d) as [->|]; [|discriminate].
    f_equal. now apply IH.
Qed.

Lemma times_one_append p (d s : string) :
  all_chars p d = true ->
  times (String.length d) (one p) (d ++ s) = Some s.
Proof.
  induction d as [|c d IH]; simpl; [reflexivity|].
  intros [Hc Hd]%andb_true_iff. rewrite Hc. now apply IH.
Qed.

Lemma times_one_inv p n (s r : string) :
  times n (one p) s = Some r ->
  exists d, s = d ++ r /\ String.length d = n /\ all_chars p d = true.
Proof.
  revert s. induction n as [|n IH]; intros s H; simpl in H.
  - exists "". injection H as ->. repeat split.
  - destruct s as [|c s]; simpl in H; [discriminate|].
    destruct (p c) eqn:Hc; [|discriminate].
    destruct (IH _ H) as (d & -> & <- & Hd).
    exists (String c d). simpl. rewrite Hc, Hd. repeat split.
Qed.

Lemma skip_while_split p (s : string) :
  exists t, s = t ++ skip_while p s
            /\ all_chars p t = true
            /\ starts_with_char p (skip_while p s) = false.
Proof.
  induction s as [|c s (t & Heq & Ht & Hstop)]; simpl.
  - now exists "".
  - destruct (p c) eqn:Hc.
    + exists (String c t). simpl. rewrite Hc, Ht, <- Heq. repeat split.
      exact Hstop.
    + exists "". simpl. now rewrite Hc.
Qed.

Lemma skip_while_all p (t : string) :
  all_chars p t = true -> skip_while p t = "".
Proof.
  induction t as [|c t IH]; simpl; [reflexivity|].
  intros [Hc Ht]%andb_true_iff. rewrite Hc. now apply IH.
Qed.

Lemma plus_inv p (s r : string) :
  plus p s = Some r ->
  exists t, s = t ++ r /\ t <> "" /\ all_chars p t = true
            /\ starts_with_char p r = false.
Proof.
  unfold plus, one. destruct s as [|c s]; [discriminate|].
  destruct (p c) eqn:Hc; [|discriminate].
  intros [= <-]. destruct (skip_while_split p s) as (t & Heq & Ht & Hstop).
  exists (String c t). simpl. rewrite Hc, Ht, <- Heq. now repeat split.
Qed.

Lemma plus_append p (t s : string) :
  t <> "" -> all_chars p t = true -> exists r, plus p (t ++ s) = Some r.
Proof.
  destruct t as [|c t]; [congruence|]. simpl.
  intros _ [Hc _]%andb_true_iff. unfold plus, one. simpl. rewrite Hc. eauto.
Qed.

(** [replace] removes the leftmost match, and nothing when there is none. *)
Lemma replace_first_spec (re : matcher) (s : string) :
  (test re s = false /\ replace_first re s = s)
  \/ (exists p q r,
        s = p ++ q /\ re q = Some r /\ replace_first re s = p ++ r
        /\ forall p' q', s = p' ++ q' ->
                         String.length p' < String.length p -> re q' = None).
Proof.
  induction s as [|c s IH]; simpl.
  - destruct (re "") as [r|] eqn:Hre.
    + right. exists "", "", r. repeat split; auto. simpl. intros; lia.
    + now left.
  - destruct (re (String c s)) as [r|] eqn:Hre.
    + right. exists "", (String c s), r. repeat split; auto. simpl. intros; lia.
    + destruct IH as [[Ht Hr]|(p & q & r & -> & Hq & Hr & Hleft)].
      * left. now rewrite Hr.
      * right. exists (String c p), q, r. simpl. rewrite Hr.
        repeat split; auto.
        intros [|c' p'] q' Heq Hlen; simpl in *.
        -- now subst q'.
        -- injection Heq as -> Heq. apply (Hleft p' q' Heq). lia.
Qed.

Lemma replace_first_match (re : matcher) (s r : string) :
  re s = Some r -> replace_first re s = r.
Proof. destruct s; simpl; now intros ->. Qed.

(** No match starts inside [p]: [replace] leaves [p] alone. *)
Lemma replace_first_after (re : matcher) (p s : string) :
  (forall p1 q1, p = p1 ++ q1 -> q1 <> "" -> re (q1 ++ s) = None) ->
  replace_first re (p ++ s) = p ++ replace_first re s.
Proof.
  induction p as [|c p IH]; intros Hnone; [reflexivity|].
  pose proof (Hnone "" (String c p) eq_refl ltac:(discriminate)) as H0.
  simpl in *. rewrite H0. f_equal. apply IH. intros p1 q1 -> Hq1.
  now apply (Hnone (String c p1) q1).
Qed.

Lemma test_false_no_match (re : matcher) (p q : string) :
  test re (p ++ q) = false -> re q = None.
Proof.
  induction p as [|c p IH]; simpl.
  - destruct q; simpl; destruct (re _); congruence.
  - destruct (re (String c (p ++ q))); [discriminate | exact IH].
Qed.

End RegexFacts.

(** ** The pattern of [findSyncConflicts] against the specification's *)

Module TagFacts.
Import JsString Regex JsStringFacts RegexFacts.

(** Where the pattern matches, it consumed a tag and stopped at a
    character that cannot continue the token. *)
Lemma syncConflictTag_sound (s r : string) :
  syncConflictTag s = Some r ->
  exists m, s = m ++ r /\ conflictTag m
            /\ starts_with_char upper_alnum r = false.
Proof.
  unfold syncConflictTag, seq. intros H.
  destruct (lit ".sync-conflict-" s) as [s1|] eqn:E1; [|discriminate].
  destruct (times 8 (one digit) s1) as [s2|] eqn:E2; [|discriminate].
  destruct (lit "-" s2) as [s3|] eqn:E3; [|discriminate].
  destruct (times 6 (one digit) s3) as [s4|] eqn:E4; [|discriminate].
  destruct (lit "-" s4) as [s5|] eqn:E5; [|discriminate].
  apply lit_inv in E1, E3, E5.
  apply times_one_inv in E2 as (date & E2 & Hdl & Hd).
  apply times_one_inv in E4 as (time & E4 & Htl & Ht).
  apply plus_inv in H as (token & E6 & Hne & Htok & Hstop).
  exists (".sync-conflict-" ++ date ++ "-" ++ time ++ "-" ++ token).
  split; [|split; [|exact Hstop]].
  - rewrite E1, E2, E3, E4, E5, E6.
    now rewrite !append_assoc.
  - exists date, time, token. now repeat split.
Qed.

(** At the start of a tag the pattern matches, whatever follows. *)
Lemma syncConflictTag_complete (m r : string) :
  conflictTag m -> exists r', syncConflictTag (m ++ r) = Some r'.
Proof.
  intros (date & time & token & -> & Hdl & Hd & Htl & Ht & Hne & Htok).
  rewrite !append_assoc. unfold syncConflictTag, seq.
  rewrite lit_append.
  rewrite <- Hdl, (times_one_append _ _ _ Hd), lit_append.
  rewrite <- Htl, (times_one_append _ _ _ Ht), lit_append.
  now apply plus_append.
Qed.

(** On a tag and nothing more the pattern consumes everything. *)
Lemma syncConflictTag_exact (m : string) :
  conflictTag m -> syncConflictTag m = Some "".
Proof.
  intros (date & time & token & -> & Hdl & Hd & Htl & Ht & Hne & Htok).
  unfold syncConflictTag, seq.
  rewrite lit_append.
  rewrite <- Hdl, (times_one_append _ _ _ Hd), lit_append.
  rewrite <- Htl, (times_one_append _ _ _ Ht), lit_append.
  destruct token as [|c token]; [congruence|].
  simpl in Htok. apply andb_true_iff in Htok as [Hc Htok].
  unfold plus, one. rewrite Hc. now rewrite skip_while_all.
Qed.

Lemma test_true_hasConflictTag (n : string) :
  test syncConflictTag n = true -> hasConflictTag n.
Proof.
  induction n as [|c n IH]; simpl.
  - destruct (syncConflictTag "") as [r|] eqn:E; [|discriminate].
    intros _. apply syncConflictTag_sound in E as (m & E & Hm & _).
    exists "", m, r. now split.
  - destruct (syncConflictTag (String c n)) as [r|] eqn:E.
    + intros _. apply syncConflictTag_sound in E as (m & E & Hm & _).
      exists "", m, r. now split.
    + intros (p & m & r & -> & Hm)%IH.
      exists (String c p), m, r. now split.
Qed.

Lemma hasConflictTag_test_true (n : string) :
  hasConflictTag n -> test syncConflictTag n = true.
Proof.
  intros (p & m & r & -> & Hm).
  destruct (test syncConflictTag (p ++ m ++ r)) eqn:E; [reflexivity|].
  apply test_false_no_match in E.
  destruct (syncConflictTag_complete m r Hm) as [r' Hr']. congruence.
Qed.

End TagFacts.

(** ** The candidate original name *)

Section OriginalName.
Import JsString Regex JsStringFacts RegexFacts TagFacts.

(** C4, as amended: the candidate original name is the file name without
    the leftmost occurrence of the tag, the token taken as long as it
    goes, wherever in the name the occurrence stands; a name without an
    occurrence is its own candidate. *)
Theorem originalFileName_removes_leftmost_tag (n : string) :
  (~ hasConflictTag n /\ originalFileName n = n)
  \/ (exists p m r,
        n = p ++ m ++ r
        /\ conflictTag m
        /\ starts_with_char upper_alnum r = false
        /\ originalFileName n = p ++ r
        /\ forall p' m' r',
             n = p' ++ m' ++ r' -> conflictTag m' ->
             String.length p <= String.length p').
Proof.
  unfold originalFileName.
  destruct (replace_first_spec syncConflictTag n)
    as [[Hno Hsame]|(p & q & r & Hn & Hq & Hrep & Hleft)].
  - left. split; [|exact Hsame].
    intros Htag%hasConflictTag_test_true. congruence.
  - right. apply syncConflictTag_sound in Hq as Hs.
    destruct Hs as (m & -> & Hm & Hstop).
    exists p, m, r. repeat split; auto.
    intros p' m' r' Hn' Hm'.
    destruct (Nat.le_gt_cases (String.length p) (String.length p'))
      as [|Hlt]; [assumption|].
    assert (Hnone : syncConflictTag (m' ++ r') = None)
      by (apply (Hleft p'); assumption).
    destruct (syncConflictTag_complete m' r' Hm'); congruence.
Qed.

(** C4, as the specification words it, fails: the tag of [taggedNote]
    is removed from the middle of the name, and what is left is not
    what stands before a tag at the end of the name. *)
Lemma originalFileName_not_suffix_removal :
  ~ (forall n, includes "sync-conflict" n = true ->
       exists p m, n = p ++ m /\ conflictTag m /\ originalFileName n = p).
Proof.
  intros H. destruct (H taggedNote eq_refl) as (p & m & Hn & _ & Hp).
  vm_compute in Hp. subst p. discriminate Hn.
Qed.

(** X25: where the tag ends the name and no match starts before it, the
    candidate is what stands before the tag, as the specification has it
    for its example [Notes.md.sync-conflict-20240101-120000-ABC123]. *)
Lemma originalFileName_trailing_tag (p m : string) :
  conflictTag m ->
  (forall p1 q1, p = p1 ++ q1 -> q1 <> "" ->
                 syncConflictTag (q1 ++ m) = None) ->
  originalFileName (p ++ m) = p.
Proof.
  intros Hm Hnone. unfold originalFileName.
  rewrite (replace_first_after _ _ _ Hnone).
  rewrite (replace_first_match _ _ _ (syncConflictTag_exact m Hm)).
  apply append_empty_r.
Qed.

Example originalFileName_taggedNote : originalFileName taggedNote = "Notes.md".
Proof. reflexivity. Qed.

(** With two tags in a name it is the first that goes. *)
Example originalFileName_two_tags :
  originalFileName
    "a.sync-conflict-20240101-120000-AB.sync-conflict-20240102-130000-CD"
  = "a.sync-conflict-20240102-130000-CD".
Proof. reflexivity. Qed.

End OriginalName.

(** ** The pairs of [findSyncConflicts] *)

Section Matcher.
Import JsString Regex.

(** What one pass of the loop body adds to the array. *)
Lemma visitFile_append files acc file :
  visitFile files acc file = (acc ++ visitFile files [] file)%list.
Proof.
  unfold visitFile.
  destruct (includes _ _); [destruct (findOriginal _ _)|]; simpl;
    now rewrite ?app_nil_r.
Qed.

Lemma fold_visitFile files l acc :
  fold_left (visitFile files) l acc
  = (acc ++ flat_map (visitFile files []) l)%list.
Proof.
  revert acc. induction l as [|file l IH]; intros acc; simpl.
  - now rewrite app_nil_r.
  - rewrite IH, visitFile_append. now rewrite <- app_assoc.
Qed.

Lemma findSyncConflicts_flat_map vault :
  findSyncConflicts vault
  = flat_map (visitFile (getMarkdownFiles vault) []) (getMarkdownFiles vault).
Proof. unfold findSyncConflicts. now rewrite fold_visitFile. Qed.

(** Where a pair comes from: a marked markdown file, and the first
    markdown file of the candidate name in the same folder. *)
Lemma findSyncConflicts_In vault pair :
  In pair (findSyncConflicts vault) ->
  In (syncConflictFile pair) (getMarkdownFiles vault)
  /\ includes "sync-conflict" (name (syncConflictFile pair)) = true
  /\ findOriginal (getMarkdownFiles vault) (syncConflictFile pair)
     = Some (originalFile pair).
Proof.
  rewrite findSyncConflicts_flat_map, in_flat_map.
  intros (file & Hfile & Hpair). unfold visitFile in Hpair.
  destruct (includes _ _) eqn:Hmark; [|contradiction].
  destruct (findOriginal _ file) as [original|] eqn:Hfind; [|contradiction].
  destruct Hpair as [<-|[]]. simpl. auto.
Qed.

(** X26: what holds of every pair: the name of the conflict file has
    the marker, the name of the original is the candidate name of the
    conflict file, and both lie in one folder, no parent counting as the
    folder of the empty path. *)
Lemma findSyncConflicts_pair vault pair :
  In pair (findSyncConflicts vault) ->
  includes "sync-conflict" (name (syncConflictFile pair)) = true
  /\ originalFileName (name (syncConflictFile pair)) = name (originalFile pair)
  /\ parentPath (syncConflictFile pair) = parentPath (originalFile pair).
Proof.
  intros (_ & Hmark & Hfind)%findSyncConflicts_In.
  apply find_some in Hfind as [_ [Hname Hparent]%andb_true_iff].
  apply String.eqb_eq in Hname, Hparent. auto.
Qed.

Lemma findSyncConflicts_markdown vault pair :
  In pair (findSyncConflicts vault) ->
  isMarkdown (syncConflictFile pair) = true
  /\ isMarkdown (originalFile pair) = true.
Proof.
  intros (Hfile & _ & Hfind)%findSyncConflicts_In.
  apply find_some in Hfind as [Horig _].
  unfold getMarkdownFiles in *.
  apply filter_In in Hfile as [_ ?], Horig as [_ ?]. auto.
Qed.

(** C1 at a vault whose only file is [markedNote]: the file is paired with
    itself, and its name does not carry the tag. *)
Theorem findSyncConflicts_pairs_marked_file_with_itself :
  findSyncConflicts [markedNote]
  = [ {| originalFile := markedNote; syncConflictFile := markedNote |} ]
  /\ test syncConflictTag (name markedNote) = false
  /\ ~ hasConflictTag (name markedNote).
Proof.
  split; [reflexivity|]. split; [reflexivity|].
  intros H%TagFacts.hasConflictTag_test_true. discriminate H.
Qed.

(** C9: a file that is not a markdown file is in no pair, on either side,
    and the pairs are those of the vault without it. *)
Theorem findSyncConflicts_markdown_only (vault : list TFile) (f : TFile) :
  isMarkdown f = false ->
  (forall pair, In pair (findSyncConflicts vault) ->
                syncConflictFile pair <> f /\ originalFile pair <> f)
  /\ (forall before after, vault = (before ++ f :: after)%list ->
        findSyncConflicts vault = findSyncConflicts (before ++ after)%list).
Proof.
  intros Hf. split.
  - intros pair [Hc Ho]%findSyncConflicts_markdown.
    split; intros E; congruence.
  - intros before after ->. unfold findSyncConflicts, getMarkdownFiles.
    rewrite !List.filter_app. simpl. now rewrite Hf.
Qed.

Lemma findSyncConflicts_markdown_only_witness :
  isMarkdown notesConflictFile = false
  /\ (forall pair,
        In pair (findSyncConflicts [notesFile; notesConflictFile]) ->
        syncConflictFile pair <> notesConflictFile
        /\ originalFile pair <> notesConflictFile)
  /\ (forall before after,
        [notesFile; notesConflictFile]
        = (before ++ notesConflictFile :: after)%list ->
        findSyncConflicts [notesFile; notesConflictFile]
        = findSyncConflicts (before ++ after)%list).
Proof.
  split; [reflexivity|].
  apply (findSyncConflicts_markdown_only
           [notesFile; notesConflictFile] notesConflictFile).
  reflexivity.
Defined.

(** The example of the specification yields no pair: the conflict file is
    not a markdown file, though its original is there, in its folder. *)
Example findSyncConflicts_specification_example :
  findSyncConflicts [notesFile; notesConflictFile] = []
  /\ originalFileName (name notesConflictFile) = name notesFile
  /\ parentPath notesConflictFile = parentPath notesFile.
Proof. repeat split. Qed.

End Matcher.

(** ** Running the commands *)

Section Runs.
Variable host : Host.

Lemma bind_returned {A B} (m : M A) (k : A -> M B) w a w' :
  m w = (Returned a, w') -> bind m k w = k a w'.
Proof. unfold bind. now intros ->. Qed.

Lemma openDifferencesView_run state w :
  openDifferencesView state w = (Returned tt, viewOpened state w).
Proof. reflexivity. Qed.

Lemma opened_viewOpened state w :
  opened (viewOpened state w) = (opened w ++ [state])%list.
Proof. reflexivity. Qed.

(** *** The acknowledgment gate *)

(** The flag is stored already: no dialog, the world is as it was. *)
Lemma acknowledgmentGate_flag_set w :
  falsy (localStorage w !! fileDiffMergeWarningKey) = false ->
  acknowledgmentGate host w = (Returned true, w).
Proof. intros H. unfold acknowledgmentGate, bind, getItem. now rewrite H. Qed.

(** The flag is not stored: the dialog decides. *)
Lemma acknowledgmentGate_flag_unset w :
  falsy (localStorage w !! fileDiffMergeWarningKey) = true ->
  acknowledgmentGate host w
  = match riskyActionModal host with
    | Accepted =>
        (Returned true,
         {| localStorage :=
              <[fileDiffMergeWarningKey := "true"]> (localStorage w);
            workspace := workspace w;
            notices := notices w;
            opened := opened w |})
    | Failed e => (Threw e, w)
    | Dismissed => (Suspended, w)
    end.
Proof.
  intros H. unfold acknowledgmentGate, bind, getItem. rewrite H.
  unfold showRiskyActionModal.
  destruct (riskyActionModal host); try reflexivity.
  unfold bind, setItem, sleep, ret; simpl.
  now rewrite lookup_insert_eq.
Qed.

(** X27: the gate never comes back with [false].  The [return] of line
    96 is never taken: the promise of the dialog resolves only after the
    flag is stored, so the flag read again is there. *)
Lemma acknowledgmentGate_never_false w :
  fst (acknowledgmentGate host w) <> Returned false.
Proof.
  destruct (falsy (localStorage w !! fileDiffMergeWarningKey)) eqn:H.
  - rewrite (acknowledgmentGate_flag_unset w H).
    now destruct (riskyActionModal host).
  - now rewrite (acknowledgmentGate_flag_set w H).
Qed.

(** The gate opens no view and shows no notice. *)
Lemma acknowledgmentGate_quiet w :
  opened (snd (acknowledgmentGate host w)) = opened w
  /\ notices (snd (acknowledgmentGate host w)) = notices w
  /\ workspace (snd (acknowledgmentGate host w)) = workspace w.
Proof.
  destruct (falsy (localStorage w !! fileDiffMergeWarningKey)) eqn:H.
  - rewrite (acknowledgmentGate_flag_unset w H).
    now destruct (riskyActionModal host).
  - now rewrite (acknowledgmentGate_flag_set w H).
Qed.

End Runs.

(** *** The review loop *)

Section Review.
Variable host : Host.

Lemma reviewStatesFrom_cons i syncConflict queue :
  reviewStatesFrom i (syncConflict :: queue)
  = reviewState i syncConflict :: reviewStatesFrom (S i) queue.
Proof.
  unfold reviewStatesFrom. rewrite imap_cons, Nat.add_0_r. f_equal.
  apply imap_ext. intros j x _. simpl. f_equal. lia.
Qed.

Lemma reviewLoop_step i syncConflict rest w :
  reviewLoop host i (syncConflict :: rest) w
  = match continuation host i with
    | Some true =>
        reviewLoop host (S i) rest (viewOpened (reviewState i syncConflict) w)
    | Some false => (Returned tt, viewOpened (reviewState i syncConflict) w)
    | None => (Suspended, viewOpened (reviewState i syncConflict) w)
    end.
Proof.
  simpl. rewrite (bind_returned _ _ _ _ _ (openDifferencesView_run _ w)).
  unfold awaitContinue, bind.
  now destruct (continuation host i) as [[|]|].
Qed.

(** Every answer is [true]: the loop goes through the whole queue. *)
Lemma reviewLoop_continue_all queue : forall i w,
  (forall j, j < length queue -> continuation host (i + j) = Some true) ->
  exists w', reviewLoop host i queue w = (Returned tt, w')
             /\ opened w' = (opened w ++ reviewStatesFrom i queue)%list.
Proof.
  induction queue as [|syncConflict rest IH]; intros i w Hall.
  - exists w. split; [reflexivity|]. now rewrite app_nil_r.
  - rewrite reviewLoop_step.
    pose proof (Hall 0 ltac:(simpl; lia)) as H0.
    rewrite Nat.add_0_r in H0. rewrite H0.
    destruct (IH (S i) (viewOpened (reviewState i syncConflict) w))
      as (w' & Hrun & Hopened).
    { intros j Hj. replace (S i + j) with (i + S j) by lia.
      apply Hall. simpl. lia. }
    exists w'. split; [exact Hrun|].
    rewrite Hopened, opened_viewOpened, reviewStatesFrom_cons.
    now rewrite <- app_assoc.
Qed.

(** An answer [false] at distance [d]: at most [d + 1] views are opened,
    those of the first pairs. *)
Lemma reviewLoop_stops queue : forall i w d,
  continuation host (i + d) = Some false ->
  exists k, k <= S d
            /\ opened (snd (reviewLoop host i queue w))
               = (opened w ++ reviewStatesFrom i (take k queue))%list.
Proof.
  induction queue as [|syncConflict rest IH]; intros i w d Hd.
  - exists 0. split; [lia|]. simpl. now rewrite app_nil_r.
  - rewrite reviewLoop_step.
    destruct (continuation host i) as [[|]|] eqn:Hi.
    + destruct d as [|d]; [rewrite Nat.add_0_r in Hd; congruence|].
      destruct (IH (S i) (viewOpened (reviewState i syncConflict) w) d)
        as (k & Hk & Hopened).
      { now replace (S i + d) with (i + S d) by lia. }
      exists (S k). split; [lia|].
      rewrite Hopened, opened_viewOpened. simpl take.
      rewrite reviewStatesFrom_cons. now rewrite <- app_assoc.
    + exists 1. split; [lia|]. simpl snd. rewrite opened_viewOpened.
      simpl take. rewrite take_0. now rewrite reviewStatesFrom_cons.
    + exists 1. split; [lia|]. simpl snd. rewrite opened_viewOpened.
      simpl take. rewrite take_0. now rewrite reviewStatesFrom_cons.
Qed.

(** The first answer [false] is at distance [d], inside the queue: the
    loop returns after exactly [d + 1] views. *)
Lemma reviewLoop_stops_exact queue : forall i w d,
  d < length queue ->
  (forall j, j < d -> continuation host (i + j) = Some true) ->
  continuation host (i + d) = Some false ->
  exists w', reviewLoop host i queue w = (Returned tt, w')
             /\ opened w'
                = (opened w ++ reviewStatesFrom i (take (S d) queue))%list.
Proof.
  induction queue as [|syncConflict rest IH]; intros i w d Hlen Htrue Hd.
  - simpl in Hlen. lia.
  - rewrite reviewLoop_step. destruct d as [|d].
    + rewrite Nat.add_0_r in Hd. rewrite Hd.
      eexists. split; [reflexivity|]. rewrite opened_viewOpened.
      simpl take. rewrite take_0. now rewrite reviewStatesFrom_cons.
    + pose proof (Htrue 0 ltac:(lia)) as H0.
      rewrite Nat.add_0_r in H0. rewrite H0.
      destruct (IH (S i) (viewOpened (reviewState i syncConflict) w) d)
        as (w' & Hrun & Hopened).
      { simpl in Hlen. lia. }
      { intros j Hj. replace (S i + j) with (i + S j) by lia.
        apply Htrue. lia. }
      { now replace (S i + d) with (i + S d) by lia. }
      exists w'. split; [exact Hrun|].
      rewrite Hopened, opened_viewOpened. simpl take.
      rewrite (reviewStatesFrom_cons i). now rewrite <- app_assoc.
Qed.

End Review.

(** ** The command [find-sync-conflicts-and-merge] *)

Section ReviewCommand.
Variable host : Host.

Lemma findSyncConflictsAndMerge_gate w outcome w1 :
  acknowledgmentGate host w = (outcome, w1) ->
  findSyncConflictsAndMerge host w
  = match outcome with
    | Returned true =>
        reviewLoop host 0 (findSyncConflicts (vaultFiles host)) w1
    | Returned false => (Returned tt, w1)
    | Threw e => (Threw e, w1)
    | Suspended => (Suspended, w1)
    end.
Proof.
  intros H. unfold findSyncConflictsAndMerge, bind. rewrite H.
  now destruct outcome as [[|]| |].
Qed.

(** C2: when the gate passes and every continue callback is called with
    [true], the command opens the view once for each pair of the queue,
    in the order of the queue, and returns: the [j]-th view it opens shows
    the original of the [j]-th pair as the first file and its conflict
    file as the second, with the merge option and the callback of that
    iteration. *)
Theorem review_visits_every_pair (w : World) :
  fst (acknowledgmentGate host w) = Returned true ->
  (forall i, i < length (findSyncConflicts (vaultFiles host)) ->
             continuation host i = Some true) ->
  exists w',
    findSyncConflictsAndMerge host w = (Returned tt, w')
    /\ opened w'
       = (opened w
          ++ imap (fun j pair =>
                     {| file1 := AFile (originalFile pair);
                        file2 := AFile (syncConflictFile pair);
                        showMergeOption := true;
                        continueCallback := Some j |})
               (findSyncConflicts (vaultFiles host)))%list
    /\ length (opened w')
       = length (opened w) + length (findSyncConflicts (vaultFiles host)).
Proof.
  intros Hgate Htrue.
  destruct (acknowledgmentGate host w) as [outcome w1] eqn:Hrun.
  simpl in Hgate. subst outcome.
  rewrite (findSyncConflictsAndMerge_gate w _ _ Hrun).
  destruct (reviewLoop_continue_all host
              (findSyncConflicts (vaultFiles host)) 0 w1 Htrue)
    as (w' & Hloop & Hopened).
  destruct (acknowledgmentGate_quiet host w) as (Hquiet & _).
  rewrite Hrun in Hquiet. simpl in Hquiet.
  exists w'. split; [exact Hloop|].
  rewrite Hopened, Hquiet. split; [reflexivity|].
  rewrite length_app. unfold reviewStatesFrom. now rewrite length_imap.
Qed.

(** C3: when the continue callback of pair [i] is called with [false],
    the views the command opens are those of the first [k] pairs for some
    [k <= i + 1], so none is opened for a pair after [i]; and when the
    loop gets to pair [i], the command returns with exactly the first
    [i + 1] views opened. *)
Theorem review_stops_at_false (w : World) (i : nat) :
  continuation host i = Some false ->
  (exists k,
     k <= S i
     /\ opened (snd (findSyncConflictsAndMerge host w))
        = (opened w
           ++ imap reviewState
                (take k (findSyncConflicts (vaultFiles host))))%list)
  /\ (fst (acknowledgmentGate host w) = Returned true ->
      i < length (findSyncConflicts (vaultFiles host)) ->
      (forall j, j < i -> continuation host j = Some true) ->
      exists w',
        findSyncConflictsAndMerge host w = (Returned tt, w')
        /\ opened w'
           = (opened w
              ++ imap reviewState
                   (take (S i) (findSyncConflicts (vaultFiles host))))%list).
Proof.
  intros Hfalse.
  destruct (acknowledgmentGate host w) as [outcome w1] eqn:Hrun.
  destruct (acknowledgmentGate_quiet host w) as (Hquiet & _).
  rewrite Hrun in Hquiet. simpl in Hquiet.
  rewrite (findSyncConflictsAndMerge_gate w _ _ Hrun). split.
  - destruct outcome as [[|]| |].
    + destruct (reviewLoop_stops host
                  (findSyncConflicts (vaultFiles host)) 0 w1 i Hfalse)
        as (k & Hk & Hopened).
      exists k. split; [exact Hk|]. now rewrite Hopened, Hquiet.
    + exists 0. split; [lia|]. simpl. now rewrite Hquiet, app_nil_r.
    + exists 0. split; [lia|]. simpl. now rewrite Hquiet, app_nil_r.
    + exists 0. split; [lia|]. simpl. now rewrite Hquiet, app_nil_r.
  - simpl. intros -> Hlen Htrue.
    destruct (reviewLoop_stops_exact host
                (findSyncConflicts (vaultFiles host)) 0 w1 i Hlen Htrue Hfalse)
      as (w' & Hloop & Hopened).
    exists w'. split; [exact Hloop|]. now rewrite Hopened, Hquiet.
Qed.

End ReviewCommand.

Lemma review_visits_every_pair_witness :
  let host := reviewHost conflictVault Dismissed (fun _ => Some true) in
  fst (acknowledgmentGate host acknowledgedWorld) = Returned true
  /\ (forall i, i < length (findSyncConflicts (vaultFiles host)) ->
                continuation host i = Some true)
  /\ exists w',
       findSyncConflictsAndMerge host acknowledgedWorld = (Returned tt, w')
       /\ opened w'
          = [ {| file1 := AFile (note "Notes.md");
                 file2 := AFile
                            (note "Notes.sync-conflict-20240101-120000-ABC123.md");
                 showMergeOption := true;
                 continueCallback := Some 0 |};
              {| file1 := AFile (note "Notes.md");
                 file2 := AFile
                            (note "Notes.sync-conflict-20240102-130000-DEF456.md");
                 showMergeOption := true;
                 continueCallback := Some 1 |} ].
Proof.
  intros host. split; [reflexivity|]. split; [reflexivity|].
  destruct (review_visits_every_pair host acknowledgedWorld)
    as (w' & Hrun & Hopened & _); [reflexivity | reflexivity |].
  exists w'. split; [exact Hrun|]. rewrite Hopened. vm_compute. reflexivity.
Defined.

Lemma review_stops_at_false_witness :
  let host :=
    reviewHost conflictVault Accepted
      (fun i => if (i =? 0)%nat then Some false else Some true) in
  continuation host 0 = Some false
  /\ length (findSyncConflicts (vaultFiles host)) = 2
  /\ exists w',
       findSyncConflictsAndMerge host freshWorld = (Returned tt, w')
       /\ opened w'
          = (opened freshWorld
             ++ imap reviewState
                  (take 1 (findSyncConflicts (vaultFiles host))))%list.
Proof.
  intros host. split; [reflexivity|]. split; [reflexivity|].
  apply (review_stops_at_false host freshWorld 0); try reflexivity.
  - simpl. lia.
  - intros j Hj. lia.
Defined.

(** ** The gate when the warning is not accepted *)

(** C7, as the specification words it, fails: when the dialog hands an
    error to [onAccept], the gate does not come back with [false]; the
    error is thrown through it. *)
Lemma acknowledgmentGate_not_false_on_error :
  ~ (forall host w,
       falsy (localStorage w !! fileDiffMergeWarningKey) = true ->
       riskyActionModal host <> Accepted ->
       fst (acknowledgmentGate host w) = Returned false
       /\ falsy (localStorage (snd (acknowledgmentGate host w))
                 !! fileDiffMergeWarningKey) = true).
Proof.
  intros H.
  destruct (H (reviewHost conflictVault (Failed dialogError) (fun _ => Some true))
              freshWorld eq_refl) as [Hgate _].
  - discriminate.
  - vm_compute in Hgate. discriminate Hgate.
Qed.

(** C7, as amended: with the flag not stored, a dialog that fails with an
    error makes the gate, and the command with it, throw that error, and a
    dialog closed without an answer leaves both waiting for good; either
    way the world is as it was: the flag is still not stored and no view
    was opened. *)
Theorem gate_without_acceptance (host : Host) (w : World) :
  falsy (localStorage w !! fileDiffMergeWarningKey) = true ->
  (forall e, riskyActionModal host = Failed e ->
             acknowledgmentGate host w = (Threw e, w)
             /\ findSyncConflictsAndMerge host w = (Threw e, w))
  /\ (riskyActionModal host = Dismissed ->
      acknowledgmentGate host w = (Suspended, w)
      /\ findSyncConflictsAndMerge host w = (Suspended, w))
  /\ (riskyActionModal host <> Accepted ->
      falsy (localStorage (snd (findSyncConflictsAndMerge host w))
             !! fileDiffMergeWarningKey) = true
      /\ opened (snd (findSyncConflictsAndMerge host w)) = opened w).
Proof.
  intros Hflag.
  pose proof (acknowledgmentGate_flag_unset host w Hflag) as Hgate.
  assert (Hcommand : forall outcome,
             acknowledgmentGate host w = (outcome, w) ->
             outcome <> Returned true ->
             snd (findSyncConflictsAndMerge host w) = w).
  { intros outcome Hrun Hstop.
    rewrite (findSyncConflictsAndMerge_gate host w outcome w Hrun).
    now destruct outcome as [[|]| |]. }
  split; [|split].
  - intros e Hmodal. rewrite Hmodal in Hgate. split; [exact Hgate|].
    now rewrite (findSyncConflictsAndMerge_gate host w (Threw e) w).
  - intros Hmodal. rewrite Hmodal in Hgate. split; [exact Hgate|].
    now rewrite (findSyncConflictsAndMerge_gate host w Suspended w).
  - intros Hmodal.
    destruct (riskyActionModal host) as [|e|]; [congruence| |];
      (erewrite Hcommand; [now split | exact Hgate | discriminate]).
Qed.

Lemma gate_without_acceptance_witness :
  let host := reviewHost conflictVault (Failed dialogError) (fun _ => Some true) in
  falsy (localStorage freshWorld !! fileDiffMergeWarningKey) = true
  /\ acknowledgmentGate host freshWorld = (Threw dialogError, freshWorld)
  /\ findSyncConflictsAndMerge host freshWorld = (Threw dialogError, freshWorld).
Proof.
  intros host. split; [reflexivity|].
  destruct (gate_without_acceptance host freshWorld eq_refl) as (Hfailed & _).
  exact (Hfailed dialogError eq_refl).
Defined.

(** ** The single differences view *)

Section Session.

Lemma wfWorkspace_empty : wfWorkspace emptyWorkspace.
Proof. constructor. Qed.

Lemma wfWorkspace_detach type ws :
  wfWorkspace ws -> wfWorkspace (detachLeavesOfType type ws).
Proof.
  unfold wfWorkspace. rewrite !List.Forall_forall. simpl.
  intros H l [Hl _]%filter_In. now apply H.
Qed.

Lemma differencesLeaves_detach ws :
  differencesLeaves (detachLeavesOfType VIEW_TYPE_DIFFERENCES ws) = [].
Proof.
  unfold differencesLeaves. simpl.
  induction (leaves ws) as [|l ls IH]; simpl; [reflexivity|].
  destruct (ViewType_eqb (leaf_type l) VIEW_TYPE_DIFFERENCES) eqn:E; simpl;
    [exact IH | now rewrite E].
Qed.

(** Setting the state of a leaf newer than all of [ls] leaves [ls] alone. *)
Lemma setViewState_older leaf type state ls :
  Forall (fun l => leaf_id l < leaf) ls ->
  List.map (fun l => if (leaf_id l =? leaf)%nat
                     then {| leaf_id := leaf_id l;
                             leaf_type := type;
                             leaf_state := Some state |}
                     else l) ls = ls.
Proof.
  induction 1 as [|l ls Hl _ IH]; simpl; [reflexivity|].
  rewrite IH. destruct (Nat.eqb_spec (leaf_id l) leaf); [lia | reflexivity].
Qed.

(** The leaves after [openDifferencesView]: those of another type, and
    one new leaf with the state. *)
Lemma leaves_viewOpened state w :
  wfWorkspace (workspace w) ->
  leaves (workspace (viewOpened state w))
  = (leaves (detachLeavesOfType VIEW_TYPE_DIFFERENCES (workspace w))
     ++ [ {| leaf_id := next_id (workspace w);
             leaf_type := VIEW_TYPE_DIFFERENCES;
             leaf_state := Some state |} ])%list.
Proof.
  intros Hwf%(wfWorkspace_detach VIEW_TYPE_DIFFERENCES).
  unfold viewOpened, openDifferencesView. simpl.
  rewrite List.map_app, setViewState_older by exact Hwf.
  simpl. now rewrite Nat.eqb_refl.
Qed.

Lemma wfWorkspace_viewOpened state w :
  wfWorkspace (workspace w) -> wfWorkspace (workspace (viewOpened state w)).
Proof.
  intros Hwf. unfold wfWorkspace. rewrite (leaves_viewOpened state w Hwf).
  apply Forall_app. split.
  - apply (wfWorkspace_detach VIEW_TYPE_DIFFERENCES) in Hwf.
    unfold wfWorkspace in Hwf. simpl in *.
    eapply List.Forall_impl; [|exact Hwf]. simpl. intros; lia.
  - repeat constructor.
Qed.

(** After a call exactly one leaf shows a differences view: the new one,
    with the state of the call, and it has the focus. *)
Lemma differencesLeaves_viewOpened state w :
  wfWorkspace (workspace w) ->
  differencesLeaves (workspace (viewOpened state w))
  = [ {| leaf_id := next_id (workspace w);
         leaf_type := VIEW_TYPE_DIFFERENCES;
         leaf_state := Some state |} ]
  /\ active_leaf (workspace (viewOpened state w))
     = Some (next_id (workspace w)).
Proof.
  intros Hwf. split; [|reflexivity].
  unfold differencesLeaves. rewrite (leaves_viewOpened state w Hwf).
  rewrite List.filter_app.
  fold (differencesLeaves (detachLeavesOfType VIEW_TYPE_DIFFERENCES (workspace w))).
  now rewrite differencesLeaves_detach.
Qed.

(** C8: after two calls of [openDifferencesView] in a row exactly one leaf
    shows a differences view; it holds the state of the second call and
    has the focus. *)
Theorem second_view_replaces_first (w : World) (first second : ViewState) :
  wfWorkspace (workspace w) ->
  exists w' leaf,
    (openDifferencesView first;; openDifferencesView second) w
    = (Returned tt, w')
    /\ differencesLeaves (workspace w') = [leaf]
    /\ leaf_state leaf = Some second
    /\ active_leaf (workspace w') = Some (leaf_id leaf).
Proof.
  intros Hwf.
  exists (viewOpened second (viewOpened first w)).
  destruct (differencesLeaves_viewOpened second (viewOpened first w))
    as [Hone Hactive]; [now apply wfWorkspace_viewOpened|].
  eexists. split; [reflexivity|]. split; [exact Hone|]. now split.
Qed.

Lemma second_view_replaces_first_witness :
  wfWorkspace (workspace freshWorld)
  /\ exists w' leaf,
       (openDifferencesView (reviewState 0 {| originalFile := notesFile;
                                              syncConflictFile := markedNote |});;
        openDifferencesView (reviewState 1 {| originalFile := notesFile;
                                              syncConflictFile := notesFile |}))
         freshWorld
       = (Returned tt, w')
       /\ differencesLeaves (workspace w') = [leaf]
       /\ leaf_state leaf
          = Some (reviewState 1 {| originalFile := notesFile;
                                   syncConflictFile := notesFile |})
       /\ active_leaf (workspace w') = Some (leaf_id leaf).
Proof.
  split; [constructor|].
  apply (second_view_replaces_first freshWorld). constructor.
Defined.

End Session.

(** ** The commands [compare-indexed-N] *)

Section IndexedLoader.
Variable host : Host.

Ltac run_loader :=
  unfold compareIndexed, try_catch, compareIndexedBody, compareIndexedCatch,
    templateText, messageOf, bind, newNotice, awaited, settled, ret, throw,
    suspend, noticed; simpl.



(** The spec is there and its two paths are read. *)
Lemma compareIndexed_paths i w content spec path1 path2 :
  adapterRead host (specPath i) = inr content ->
  jsonParse host content = inr spec ->
  getProperty (nullAccess host) spec "file1" = inr path1 ->
  getProperty (nullAccess host) spec "file2" = inr path2 ->
  compareIndexed host i w
  = match getAbstractFileByPath host path1 with
    | None =>
        (Returned tt,
         noticed [loadingNotice i; loadedNotice i;
                  if printable path1 then fileNotFoundNotice i "1" path1
                  else errorNotice i (toPrimitiveError host)] w)
    | Some file1 =>
        match getAbstractFileByPath host path2 with
        | None =>
            (Returned tt,
             noticed [loadingNotice i; loadedNotice i;
                      if printable path2 then fileNotFoundNotice i "2" path2
                      else errorNotice i (toPrimitiveError host)] w)
        | Some file2 =>
            (Returned tt,
             noticed [ {| text := indexPrefix i ++ "Success!";
                          duration := Some 3000 |} ]
               (viewOpened {| file1 := file1; file2 := file2;
                              showMergeOption := false;
                              continueCallback := None |}
                  (noticed [loadingNotice i; loadedNotice i;
                            {| text := indexPrefix i ++ "Opening diff view...";
                               duration := None |}] w)))
        end
    end.
Proof.
  intros Hread Hparse H1 H2. run_loader.
  rewrite Hread. simpl. rewrite Hparse. simpl. rewrite H1. simpl.
  rewrite H2. simpl.
  destruct (getAbstractFileByPath host path1) as [f1|]; simpl.
  - destruct (getAbstractFileByPath host path2) as [f2|]; simpl.
    + unfold viewOpened. simpl. now rewrite <- !app_assoc.
    + destruct (printable path2); simpl; now rewrite <- !app_assoc.
  - destruct (printable path1); simpl; now rewrite <- !app_assoc.
Qed.

(** The spec parsed to [null]: the read of [spec.file1] throws, and the
    [catch] block reports it. *)
Lemma compareIndexed_null_spec i w content :
  adapterRead host (specPath i) = inr content ->
  jsonParse host content = inr JNull ->
  compareIndexed host i w
  = (Returned tt,
     noticed [loadingNotice i; loadedNotice i;
              errorNotice i (nullAccess host "file1")] w).
Proof.
  intros Hread Hparse. run_loader. rewrite Hread. simpl. rewrite Hparse. simpl.
  now rewrite <- !app_assoc.
Qed.

(** The loop registers one command for each index from 0 to 9. *)
Lemma indexedCommands_spec (id : string) (command : M unit) :
  In (id, command) (indexedCommands host)
  <-> exists i, i < 10
                /\ id = "compare-indexed-" ++ indexText i
                /\ command = compareIndexed host i.
Proof.
  unfold indexedCommands. rewrite in_map_iff. split.
  - intros (i & [= <- <-] & Hi%in_seq). exists i. split; [lia | auto].
  - intros (i & Hi & -> & ->). exists i. split; [reflexivity|].
    apply in_seq. lia.
Qed.

Lemma getProperty_parsed (spec : JSValue) (prop : string) :
  isNullish spec = false ->
  exists v, getProperty (nullAccess host) spec prop = inr v
            /\ (lacksField spec prop -> v = JUndefined).
Proof.
  destruct spec; simpl; try discriminate; eauto.
  intros _. eexists. split; [reflexivity|]. now intros ->.
Qed.

End IndexedLoader.

(** *** What the loader reports *)

Section LoaderReports.
Import JsStringFacts.




(** A path that does not print: the conversion throws where the notice is
    made, and it is the [catch] block that reports. *)
Example compareIndexed_path_that_does_not_print :
  compareIndexed (specHost (sampleRead 0 oddSpecText) oddParse folderAndA)
    0 freshWorld
  = (Returned tt,
     noticed [loadingNotice 0; loadedNotice 0;
              errorNotice 0 conversionError] freshWorld).
Proof. reflexivity. Qed.





End LoaderReports.

Section MissingField.

(** C10, as worded, fails: the text [null] is well-formed
    JSON without a [file1], and it is not a file that is reported as not
    found but the error of reading [spec.file1], by the [catch] block. *)
Lemma compareIndexed_null_spec_not_file_not_found :
  ~ (forall host w i content spec,
       i < 10 ->
       adapterRead host (specPath i) = inr content ->
       jsonParse host content = inr spec ->
       lacksField spec "file1" ->
       getAbstractFileByPath host JUndefined = None ->
       compareIndexed host i w
       = (Returned tt,
          noticed [loadingNotice i; loadedNotice i;
                   fileNotFoundNotice i "1" JUndefined] w)).
Proof.
  intros H.
  specialize (H (specHost (sampleRead 0 "null") sampleParse onlyA)
                freshWorld 0 "null" JNull).
  rewrite (compareIndexed_null_spec _ 0 freshWorld "null") in H
    by reflexivity.
  discriminate H; (lia || reflexivity || exact I).
Qed.

(** C10, as amended: the spec parsed to a value other than [null] (and
    [undefined], which no parse yields), and the path [undefined] resolves
    to nothing.  Without a [file1] the
    command reports file 1 as not found, under the name [undefined];
    with a [file1] that resolves and without a [file2] it reports
    file 2 so; it is not the [catch] block that reports, and no view is
    opened. *)
Theorem compareIndexed_missing_field
    (host : Host) (w : World) (i : nat) (content : string) (spec : JSValue) :
  i < 10 ->
  adapterRead host (specPath i) = inr content ->
  jsonParse host content = inr spec ->
  isNullish spec = false ->
  getAbstractFileByPath host JUndefined = None ->
  (lacksField spec "file1" ->
   compareIndexed host i w
   = (Returned tt,
      noticed [loadingNotice i; loadedNotice i;
               fileNotFoundNotice i "1" JUndefined] w))
  /\ (lacksField spec "file2" ->
      forall path1 file1,
        getProperty (nullAccess host) spec "file1" = inr path1 ->
        getAbstractFileByPath host path1 = Some file1 ->
        compareIndexed host i w
        = (Returned tt,
           noticed [loadingNotice i; loadedNotice i;
                    fileNotFoundNotice i "2" JUndefined] w))
  /\ text (fileNotFoundNotice i "1" JUndefined)
     = indexPrefix i ++ "ERROR - File 1 not found: undefined"
  /\ text (fileNotFoundNotice i "2" JUndefined)
     = indexPrefix i ++ "ERROR - File 2 not found: undefined".
Proof.
  intros _ Hread Hparse Hnull Hnone.
  destruct (getProperty_parsed host spec "file1" Hnull)
    as (path1 & H1 & Hlacks1).
  destruct (getProperty_parsed host spec "file2" Hnull)
    as (path2 & H2 & Hlacks2).
  rewrite (compareIndexed_paths host i w content spec path1 path2
             Hread Hparse H1 H2).
  repeat split.
  - intros ->%Hlacks1. now rewrite Hnone.
  - intros ->%Hlacks2 p1 f1 Hp1 Hf1.
    assert (p1 = path1) as -> by congruence.
    now rewrite Hf1, Hnone.
Qed.

Lemma compareIndexed_missing_field_witness :
  let host := specHost (sampleRead 7 file2OnlyText) sampleParse onlyA in
  7 < 10
  /\ isNullish file2Only = false
  /\ lacksField file2Only "file1"
  /\ compareIndexed host 7 freshWorld
     = (Returned tt,
        noticed [loadingNotice 7; loadedNotice 7;
                 {| text := "File Diff Index 7: ERROR - File 1 not found: undefined";
                    duration := Some 5000 |}] freshWorld).
Proof.
  intros host. split; [lia|]. split; [reflexivity|]. split; [reflexivity|].
  destruct (compareIndexed_missing_field host freshWorld 7
              file2OnlyText file2Only)
    as (Hfile1 & _);
    [lia | reflexivity | reflexivity | reflexivity | reflexivity |].
  apply Hfile1. reflexivity.
Defined.

End MissingField.

(** * Further properties of the code *)

(** ** The pattern and the candidate name *)

Section PatternMore.
Import JsString Regex JsStringFacts RegexFacts TagFacts.

Lemma length_append (a b : string) :
  String.length (a ++ b) = String.length a + String.length b.
Proof. induction a as [|x a IH]; simpl; [reflexivity | now rewrite IH]. Qed.

Lemma prefix_append (w b : string) : String.prefix w (w ++ b) = true.
Proof.
  induction w as [|c w IH]; simpl; [now destruct b|].
  now destruct (ascii_dec c c).
Qed.

Lemma includes_unfold (w s : string) :
  includes w s
  = String.prefix w s
    || match s with
       | EmptyString => false
       | String _ s' => includes w s'
       end.
Proof. now destruct s. Qed.

Lemma includes_append (a w b : string) : includes w (a ++ w ++ b) = true.
Proof.
  induction a as [|c a IH]; simpl.
  - now rewrite includes_unfold, prefix_append.
  - rewrite IH. apply orb_true_r.
Qed.

Lemma conflictTag_length (m : string) :
  conflictTag m -> 32 <= String.length m.
Proof.
  intros (date & time & token & -> & Hdl & _ & Htl & _ & Hne & _).
  rewrite !length_append, Hdl, Htl. destruct token; [congruence|].
  simpl. lia.
Qed.

(** The candidate name, by cases on the pattern matching somewhere. *)
Lemma originalFileName_cases (n : string) :
  (test syncConflictTag n = false /\ originalFileName n = n)
  \/ (exists p m r,
        n = p ++ m ++ r /\ conflictTag m /\ originalFileName n = p ++ r).
Proof.
  unfold originalFileName.
  destruct (replace_first_spec syncConflictTag n)
    as [?|(p & q & r & -> & (m & -> & Hm & _)%syncConflictTag_sound & Hr & _)].
  - now left.
  - right. now exists p, m, r.
Qed.

(** X1: the pattern of the code matches somewhere in a name exactly when
    the name carries a tag as the specification describes it: a dot,
    [sync-conflict-], 8 digits, a dash, 6 digits, a dash and a token of
    upper-case letters and digits that is not empty. *)
Theorem syncConflictTag_test_iff (n : string) :
  test syncConflictTag n = true <-> hasConflictTag n.
Proof.
  split; [apply test_true_hasConflictTag | apply hasConflictTag_test_true].
Qed.

(** X2: a name that carries a tag contains the marker [sync-conflict], so
    the test [includes] of the loop lets every tagged name through. *)
Theorem hasConflictTag_includes_marker (n : string) :
  hasConflictTag n -> includes "sync-conflict" n = true.
Proof.
  intros (p & m & r & -> & date & time & token & -> & _).
  rewrite !append_assoc.
  replace (p ++ ".sync-conflict-" ++ date ++ "-" ++ time ++ "-" ++ token ++ r)
    with ((p ++ ".") ++ "sync-conflict"
          ++ "-" ++ date ++ "-" ++ time ++ "-" ++ token ++ r)
    by now rewrite append_assoc.
  apply includes_append.
Qed.

Lemma hasConflictTag_includes_marker_witness :
  hasConflictTag taggedNote /\ includes "sync-conflict" taggedNote = true.
Proof.
  assert (H : hasConflictTag taggedNote)
    by (apply test_true_hasConflictTag; reflexivity).
  split; [exact H | exact (hasConflictTag_includes_marker taggedNote H)].
Defined.

(** X3: the candidate of a name that carries a tag is shorter than the
    name by the 32 characters of the shortest tag at least; the candidate
    of a name without a tag is the name. *)
Theorem originalFileName_length (n : string) :
  (hasConflictTag n ->
   String.length (originalFileName n) + 32 <= String.length n)
  /\ (~ hasConflictTag n -> originalFileName n = n).
Proof.
  destruct (originalFileName_cases n)
    as [[Hno Hsame]|(p & m & r & Hn & Hm & Hrep)]; split.
  - intros H%hasConflictTag_test_true. congruence.
  - now intros _.
  - intros _. rewrite Hrep, Hn, !length_append.
    apply conflictTag_length in Hm. lia.
  - intros []. now exists p, m, r.
Qed.

Lemma originalFileName_length_witness :
  hasConflictTag taggedNote
  /\ String.length (originalFileName taggedNote) + 32
     <= String.length taggedNote.
Proof.
  assert (H : hasConflictTag taggedNote)
    by (apply test_true_hasConflictTag; reflexivity).
  split; [exact H|].
  destruct (originalFileName_length taggedNote) as [Hshort _].
  exact (Hshort H).
Defined.

End PatternMore.

(** ** More on the pairs of [findSyncConflicts] *)

Section MatcherMore.
Import JsString Regex TagFacts.

Lemma findOriginal_same_name files f1 f2 :
  originalFileName (name f1) = originalFileName (name f2) ->
  parentPath f1 = parentPath f2 ->
  findOriginal files f1 = findOriginal files f2.
Proof. unfold findOriginal. now intros -> ->. Qed.

Lemma findOriginal_Some files file original :
  findOriginal files file = Some original ->
  In original files
  /\ name original = originalFileName (name file)
  /\ parentPath file = parentPath original.
Proof.
  intros [Hin [Hname Hparent]%andb_true_iff]%find_some.
  apply String.eqb_eq in Hname, Hparent. auto.
Qed.

Lemma findOriginal_None files file g :
  findOriginal files file = None -> In g files ->
  name g = originalFileName (name file) -> parentPath g <> parentPath file.
Proof.
  intros Hnone Hg Hname Hparent.
  apply (find_none _ _ Hnone) in Hg.
  now rewrite Hname, Hparent, !String.eqb_refl in Hg.
Qed.

Lemma conflict_files_of_visits files l :
  List.map syncConflictFile (flat_map (visitFile files []) l)
  = List.filter (fun f => includes "sync-conflict" (name f)
                          && hasOriginal files f) l.
Proof.
  induction l as [|file l IH]; simpl; [reflexivity|].
  rewrite List.map_app, IH. unfold visitFile, hasOriginal.
  destruct (includes "sync-conflict" (name file));
    [destruct (findOriginal files file)|]; reflexivity.
Qed.

Lemma visits_length files l :
  length (flat_map (visitFile files []) l)
  <= length (List.filter (fun f => includes "sync-conflict" (name f)) l).
Proof.
  induction l as [|file l IH]; simpl; [lia|].
  rewrite length_app. unfold visitFile at 1.
  destruct (includes "sync-conflict" (name file));
    [destruct (findOriginal files file)|]; simpl; lia.
Qed.

(** X4: the conflict files of the pairs are, in the order of the vault,
    the markdown files whose name has the marker and that have an
    original; so there are no more pairs than marked markdown files, and
    no file is the conflict file of two pairs unless the vault lists it
    twice. *)
Theorem findSyncConflicts_conflict_files (vault : list TFile) :
  List.map syncConflictFile (findSyncConflicts vault)
  = List.filter (fun f => includes "sync-conflict" (name f)
                          && hasOriginal (getMarkdownFiles vault) f)
      (getMarkdownFiles vault)
  /\ length (findSyncConflicts vault)
     <= length (List.filter (fun f => includes "sync-conflict" (name f))
                  (getMarkdownFiles vault)).
Proof.
  rewrite findSyncConflicts_flat_map. split.
  - apply conflict_files_of_visits.
  - apply visits_length.
Qed.

(** X5: a marked markdown file is paired as soon as a markdown file of
    its candidate name lies in its folder, and then with a file of that
    name in that folder. *)
Theorem marked_file_with_original_is_paired
    (vault : list TFile) (file g : TFile) :
  In file (getMarkdownFiles vault) ->
  includes "sync-conflict" (name file) = true ->
  In g (getMarkdownFiles vault) ->
  name g = originalFileName (name file) ->
  parentPath g = parentPath file ->
  exists pair,
    In pair (findSyncConflicts vault)
    /\ syncConflictFile pair = file
    /\ name (originalFile pair) = name g
    /\ parentPath (originalFile pair) = parentPath file.
Proof.
  intros Hfile Hmark Hg Hname Hparent.
  destruct (findOriginal (getMarkdownFiles vault) file) as [original|] eqn:Hfind.
  - exists {| originalFile := original; syncConflictFile := file |}.
    apply findOriginal_Some in Hfind as Horig.
    destruct Horig as (_ & Ho & Hp). simpl.
    split; [|split; [reflexivity | split; congruence]].
    rewrite findSyncConflicts_flat_map, in_flat_map.
    exists file. split; [exact Hfile|].
    unfold visitFile. rewrite Hmark, Hfind. now left.
  - now destruct (findOriginal_None _ _ g Hfind Hg Hname).
Qed.

Lemma marked_file_with_original_is_paired_witness :
  let file := note "Notes.sync-conflict-20240102-130000-DEF456.md" in
  In file (getMarkdownFiles conflictVault)
  /\ includes "sync-conflict" (name file) = true
  /\ exists pair,
       In pair (findSyncConflicts conflictVault)
       /\ syncConflictFile pair = file
       /\ name (originalFile pair) = name (note "Notes.md")
       /\ parentPath (originalFile pair) = parentPath file.
Proof.
  intros file. split; [vm_compute; auto|]. split; [reflexivity|].
  apply (marked_file_with_original_is_paired conflictVault file
           (note "Notes.md")).
  - vm_compute. auto.
  - reflexivity.
  - vm_compute. auto.
  - vm_compute. reflexivity.
  - reflexivity.
Defined.

(** X6: a marked file with no markdown file of its candidate name in its
    folder is the conflict file of no pair, wherever else a file of that
    name lies. *)
Theorem marked_file_without_original_is_dropped
    (vault : list TFile) (file : TFile) :
  (forall g, In g (getMarkdownFiles vault) ->
             name g = originalFileName (name file) ->
             parentPath g <> parentPath file) ->
  forall pair, In pair (findSyncConflicts vault) ->
               syncConflictFile pair <> file.
Proof.
  intros Hnone pair (_ & _ & Hfind)%findSyncConflicts_In <-.
  apply findOriginal_Some in Hfind as (Hin & Hname & Hparent).
  now apply (Hnone (originalFile pair)).
Qed.

Lemma marked_file_without_original_is_dropped_witness :
  (forall g, In g (getMarkdownFiles strayVault) ->
             name g = originalFileName (name strayConflict) ->
             parentPath g <> parentPath strayConflict)
  /\ (forall pair, In pair (findSyncConflicts strayVault) ->
                   syncConflictFile pair <> strayConflict)
  /\ findSyncConflicts strayVault = [].
Proof.
  assert (H : forall g, In g (getMarkdownFiles strayVault) ->
                        name g = originalFileName (name strayConflict) ->
                        parentPath g <> parentPath strayConflict).
  { simpl. intros g [<-|[<-|[]]]; simpl; discriminate. }
  split; [exact H|]. split; [|reflexivity].
  exact (marked_file_without_original_is_dropped strayVault strayConflict H).
Defined.

(** X7: two conflict files with one candidate name in one folder are
    paired with the same original. *)
Theorem same_candidate_same_original (vault : list TFile)
    (pair1 pair2 : ConflictPair) :
  In pair1 (findSyncConflicts vault) ->
  In pair2 (findSyncConflicts vault) ->
  originalFileName (name (syncConflictFile pair1))
  = originalFileName (name (syncConflictFile pair2)) ->
  parentPath (syncConflictFile pair1) = parentPath (syncConflictFile pair2) ->
  originalFile pair1 = originalFile pair2.
Proof.
  intros (_ & _ & H1)%findSyncConflicts_In (_ & _ & H2)%findSyncConflicts_In
    Hname Hparent.
  rewrite (findOriginal_same_name _ _ _ Hname Hparent) in H1. congruence.
Qed.

Lemma same_candidate_same_original_witness :
  let pair1 :=
    {| originalFile := note "Notes.md";
       syncConflictFile :=
         note "Notes.sync-conflict-20240101-120000-ABC123.md" |} in
  let pair2 :=
    {| originalFile := note "Notes.md";
       syncConflictFile :=
         note "Notes.sync-conflict-20240102-130000-DEF456.md" |} in
  findSyncConflicts conflictVault = [pair1; pair2]
  /\ originalFile pair1 = originalFile pair2.
Proof.
  intros pair1 pair2.
  assert (Hpairs : findSyncConflicts conflictVault = [pair1; pair2])
    by (vm_compute; reflexivity).
  split; [exact Hpairs|].
  apply (same_candidate_same_original conflictVault pair1 pair2).
  - rewrite Hpairs. now left.
  - rewrite Hpairs. right. now left.
  - vm_compute. reflexivity.
  - reflexivity.
Defined.

(** X8: in a pair whose conflict file carries a tag the original is
    another file, with a name shorter by 32 characters at least; a file is
    paired with itself only when its name has the marker and no tag. *)
Theorem tagged_conflict_has_other_original
    (vault : list TFile) (pair : ConflictPair) :
  In pair (findSyncConflicts vault) ->
  (hasConflictTag (name (syncConflictFile pair)) ->
   String.length (name (originalFile pair)) + 32
   <= String.length (name (syncConflictFile pair))
   /\ originalFile pair <> syncConflictFile pair)
  /\ (originalFile pair = syncConflictFile pair ->
      ~ hasConflictTag (name (syncConflictFile pair))
      /\ includes "sync-conflict" (name (syncConflictFile pair)) = true).
Proof.
  intros (_ & Hmark & Hfind)%findSyncConflicts_In.
  apply findOriginal_Some in Hfind as (_ & Hname & _).
  assert (Hshort : hasConflictTag (name (syncConflictFile pair)) ->
                   String.length (name (originalFile pair)) + 32
                   <= String.length (name (syncConflictFile pair))).
  { intros Htag. rewrite Hname.
    destruct (originalFileName_cases (name (syncConflictFile pair)))
      as [[Hno _]|(p & m & r & Hn & Hm & Hrep)].
    - apply hasConflictTag_test_true in Htag. congruence.
    - rewrite Hrep, Hn, !length_append.
      apply conflictTag_length in Hm. lia. }
  split.
  - intros Htag. split; [now apply Hshort|].
    intros Heq. apply Hshort in Htag. rewrite Heq in Htag. lia.
  - intros Heq. split; [|exact Hmark].
    intros Htag%Hshort. rewrite Heq in Htag. lia.
Qed.

Lemma tagged_conflict_has_other_original_witness :
  let pair :=
    {| originalFile := note "Notes.md";
       syncConflictFile :=
         note "Notes.sync-conflict-20240101-120000-ABC123.md" |} in
  In pair (findSyncConflicts conflictVault)
  /\ hasConflictTag (name (syncConflictFile pair))
  /\ String.length (name (originalFile pair)) + 32
     <= String.length (name (syncConflictFile pair))
  /\ originalFile pair <> syncConflictFile pair.
Proof.
  intros pair.
  assert (Hin : In pair (findSyncConflicts conflictVault))
    by (vm_compute; auto).
  assert (Htag : hasConflictTag (name (syncConflictFile pair)))
    by (apply test_true_hasConflictTag; reflexivity).
  split; [exact Hin|]. split; [exact Htag|].
  destruct (tagged_conflict_has_other_original conflictVault pair Hin)
    as [H _].
  exact (H Htag).
Defined.

End MatcherMore.

(** ** What the commands leave alone

    A relation between the world before and the world after that every
    step of a command keeps is kept by the command. *)

Section Frame.
Variable R : World -> World -> Prop.
Hypothesis R_refl : forall w, R w w.
Hypothesis R_trans : forall w1 w2 w3, R w1 w2 -> R w2 w3 -> R w1 w3.

Lemma keeps_ret {A} (a : A) : keeps R (ret a).
Proof. intros w. apply R_refl. Qed.

Lemma keeps_throw {A} (e : Thrown) : keeps R (@throw A e).
Proof. intros w. apply R_refl. Qed.

Lemma keeps_suspend {A} : keeps R (@suspend A).
Proof. intros w. apply R_refl. Qed.

Lemma keeps_settled {A} (r : Error + A) : keeps R (settled r).
Proof. destruct r; [apply keeps_throw | apply keeps_ret]. Qed.

Lemma keeps_awaited {A} (r : Unresolved + A) : keeps R (awaited r).
Proof.
  destruct r as [[reason|]|a];
    [apply keeps_throw | apply keeps_suspend | apply keeps_ret].
Qed.

Lemma keeps_getItem key : keeps R (getItem key).
Proof. intros w. apply R_refl. Qed.

Lemma keeps_bind {A B} (m : M A) (k : A -> M B) :
  keeps R m -> (forall a, keeps R (k a)) -> keeps R (bind m k).
Proof.
  intros Hm Hk w. unfold bind. specialize (Hm w).
  destruct (m w) as [[a|e|] w1]; simpl in *; [|exact Hm..].
  exact (R_trans _ _ _ Hm (Hk a w1)).
Qed.

Lemma keeps_try_catch {A} (m : M A) (handler : Thrown -> M A) :
  keeps R m -> (forall e, keeps R (handler e)) -> keeps R (try_catch m handler).
Proof.
  intros Hm Hh w. unfold try_catch. specialize (Hm w).
  destruct (m w) as [[a|e|] w1]; simpl in *; [exact Hm| |exact Hm].
  exact (R_trans _ _ _ Hm (Hh e w1)).
Qed.

Variable host : Host.

Lemma keeps_acknowledgmentGate :
  keeps R (setItem fileDiffMergeWarningKey "true") ->
  keeps R (acknowledgmentGate host).
Proof.
  intros Hset. unfold acknowledgmentGate.
  apply keeps_bind; [apply keeps_getItem | intros item].
  destruct (falsy item); [|apply keeps_ret].
  apply keeps_bind.
  - unfold showRiskyActionModal.
    destruct (riskyActionModal host);
      [|apply keeps_throw | apply keeps_suspend].
    apply keeps_bind; [exact Hset | intros _].
    apply keeps_bind; intros; apply keeps_ret.
  - intros _. apply keeps_bind; [apply keeps_getItem | intros item'].
    destruct (falsy item'); apply keeps_ret.
Qed.

Lemma keeps_reviewLoop queue : forall i,
  (forall j syncConflict, keeps R (openDifferencesView (reviewState j syncConflict))) ->
  keeps R (reviewLoop host i queue).
Proof.
  induction queue as [|syncConflict rest IH]; intros i Hopen; simpl.
  - apply keeps_ret.
  - apply keeps_bind; [apply Hopen | intros _].
    apply keeps_bind.
    + unfold awaitContinue.
      destruct (continuation host i); [apply keeps_ret | apply keeps_suspend].
    + intros [|]; [now apply IH | apply keeps_ret].
Qed.

Lemma keeps_findSyncConflictsAndMerge :
  keeps R (setItem fileDiffMergeWarningKey "true") ->
  (forall j syncConflict,
     keeps R (openDifferencesView (reviewState j syncConflict))) ->
  keeps R (findSyncConflictsAndMerge host).
Proof.
  intros Hset Hopen. unfold findSyncConflictsAndMerge.
  apply keeps_bind; [now apply keeps_acknowledgmentGate | intros [|]].
  - now apply keeps_reviewLoop.
  - apply keeps_ret.
Qed.

Lemma keeps_templateText (v : JSValue) : keeps R (templateText host v).
Proof.
  unfold templateText. destruct (printable v);
    [apply keeps_ret | apply keeps_throw].
Qed.

Lemma keeps_compareIndexed i :
  (forall rest d, keeps R (newNotice (indexPrefix i ++ rest) d)) ->
  (forall state, readOnlyView state -> keeps R (openDifferencesView state)) ->
  keeps R (compareIndexed host i).
Proof.
  intros Hnotice Hopen. unfold compareIndexed.
  apply keeps_try_catch.
  - unfold compareIndexedBody.
    apply keeps_bind; [apply Hnotice | intros _].
    apply keeps_bind; [apply keeps_awaited | intros specContent].
    apply keeps_bind; [apply keeps_settled | intros spec].
    apply keeps_bind; [apply Hnotice | intros _].
    apply keeps_bind; [apply keeps_settled | intros path1].
    apply keeps_bind; [apply keeps_settled | intros path2].
    destruct (getAbstractFileByPath host path1) as [f1|].
    + destruct (getAbstractFileByPath host path2) as [f2|].
      * apply keeps_bind; [apply Hnotice | intros _].
        apply keeps_bind; [now apply Hopen | intros _].
        apply Hnotice.
      * apply keeps_bind; [apply keeps_templateText | intros shown].
        apply Hnotice.
    + apply keeps_bind; [apply keeps_templateText | intros shown].
      apply Hnotice.
  - intros e. unfold compareIndexedCatch.
    apply keeps_bind; [apply keeps_settled | intros errorMessage].
    apply keeps_bind; [apply keeps_templateText | intros shown].
    apply Hnotice.
Qed.

Variable editor : Editor.

Lemma keeps_getFileToCompare activeFile :
  keeps R (getFileToCompare host editor activeFile).
Proof.
  unfold getFileToCompare, showSelectOtherFileModal.
  destruct (selectFileModal editor _);
    [apply keeps_ret | apply keeps_throw | apply keeps_suspend].
Qed.

Lemma keeps_compareTask activeFile :
  (forall state, readOnlyView state -> file1 state = AFile activeFile ->
                 keeps R (openDifferencesView state)) ->
  keeps R (compareTask host editor activeFile).
Proof.
  intros Hopen. unfold compareTask.
  apply keeps_bind; [apply keeps_getFileToCompare | intros [f|]].
  - now apply Hopen.
  - apply keeps_ret.
Qed.

Lemma keeps_proceedWithMerge activeFile :
  keeps R (setItem fileDiffMergeWarningKey "true") ->
  (forall state, showMergeOption state = true ->
                 continueCallback state = None ->
                 file1 state = AFile activeFile ->
                 keeps R (openDifferencesView state)) ->
  keeps R (proceedWithMerge host editor activeFile).
Proof.
  intros Hset Hopen. unfold proceedWithMerge.
  apply keeps_bind; [now apply keeps_acknowledgmentGate | intros [|]].
  - apply keeps_bind; [apply keeps_getFileToCompare | intros [f|]].
    + now apply Hopen.
    + apply keeps_ret.
  - apply keeps_ret.
Qed.

End Frame.

(** ** Every run of an indexed command *)

Section LoaderRuns.
Variable host : Host.



(** X13: the spec is read and parsed and both paths resolve: the
    command opens one view on what the two paths resolve to, files or
    folders, without merge option and without continue callback, between
    the notices [Opening diff view...] and [Success!], and returns. *)
Theorem compareIndexed_opens_view
    (i : nat) (w : World) (content : string) (spec path1 path2 : JSValue)
    (first second : TAbstractFile) :
  i < 10 ->
  adapterRead host (specPath i) = inr content ->
  jsonParse host content = inr spec ->
  getProperty (nullAccess host) spec "file1" = inr path1 ->
  getProperty (nullAccess host) spec "file2" = inr path2 ->
  getAbstractFileByPath host path1 = Some first ->
  getAbstractFileByPath host path2 = Some second ->
  let state := {| file1 := first; file2 := second;
                  showMergeOption := false; continueCallback := None |} in
  exists w',
    compareIndexed host i w = (Returned tt, w')
    /\ opened w' = (opened w ++ [state])%list
    /\ localStorage w' = localStorage w
    /\ notices w'
       = (notices w
          ++ [ loadingNotice i; loadedNotice i;
               {| text := indexPrefix i ++ "Opening diff view...";
                  duration := None |};
               {| text := indexPrefix i ++ "Success!";
                  duration := Some 3000 |} ])%list
    /\ (wfWorkspace (workspace w) ->
        exists leaf,
          differencesLeaves (workspace w') = [leaf]
          /\ leaf_state leaf = Some state).
Proof.
  intros _ Hread Hparse H1 H2 R1 R2 state.
  rewrite (compareIndexed_paths host i w content spec path1 path2
             Hread Hparse H1 H2), R1, R2.
  fold state. eexists. split; [reflexivity|]. repeat split.
  - simpl. now rewrite <- app_assoc.
  - intros Hwf.
    destruct (differencesLeaves_viewOpened state
                (noticed [loadingNotice i; loadedNotice i;
                          {| text := indexPrefix i ++ "Opening diff view...";
                             duration := None |}] w) Hwf) as [Hone _].
    eexists. split; [exact Hone | reflexivity].
Qed.

End LoaderRuns.

Lemma compareIndexed_opens_view_witness :
  let host := resolvingHost 4 in
  4 < 10
  /\ getAbstractFileByPath host (JString "a.md") = Some (AFile (note "a.md"))
  /\ exists w',
       compareIndexed host 4 freshWorld = (Returned tt, w')
       /\ opened w'
          = [ {| file1 := AFile (note "a.md"); file2 := AFile (note "b.md");
                 showMergeOption := false; continueCallback := None |} ].
Proof.
  intros host. split; [lia|]. split; [reflexivity|].
  destruct (compareIndexed_opens_view host 4 freshWorld abSpecText abSpec
              (JString "a.md") (JString "b.md")
              (AFile (note "a.md")) (AFile (note "b.md")))
    as (w' & Hrun & Hopened & _); try reflexivity; [lia|].
  exists w'. split; [exact Hrun | exact Hopened].
Defined.

Section FrameInstances.
Variable host : Host.
Variable editor : Editor.

Lemma storageUpToFlag_trans w1 w2 w3 :
  storageUpToFlag w1 w2 -> storageUpToFlag w2 w3 -> storageUpToFlag w1 w3.
Proof.
  unfold storageUpToFlag. intros [H12|H12] [H23|H23]; rewrite H23, H12; auto.
  right. apply insert_insert_eq.
Qed.

Lemma openedOnly_trans P w1 w2 w3 :
  openedOnly P w1 w2 -> openedOnly P w2 w3 -> openedOnly P w1 w3.
Proof.
  intros (m1 & H1 & F1) (m2 & H2 & F2). exists (m1 ++ m2)%list. split.
  - now rewrite H2, H1, <- app_assoc.
  - apply Forall_app. now split.
Qed.

Lemma openedOnly_view (P : ViewState -> Prop) state :
  P state -> keeps (openedOnly P) (openDifferencesView state).
Proof. intros HP w. exists [state]. split; [reflexivity | now constructor]. Qed.

Lemma openedOnly_same (P : ViewState -> Prop) {A} (m : M A) :
  (forall w, opened (snd (m w)) = opened w) -> keeps (openedOnly P) m.
Proof.
  intros H w. exists []. split; [now rewrite H, app_nil_r | constructor].
Qed.

Lemma noticedOnly_trans prefix w1 w2 w3 :
  noticedOnly prefix w1 w2 -> noticedOnly prefix w2 w3 ->
  noticedOnly prefix w1 w3.
Proof.
  intros (m1 & H1 & F1) (m2 & H2 & F2). exists (m1 ++ m2)%list. split.
  - now rewrite H2, H1, <- app_assoc.
  - apply Forall_app. now split.
Qed.

(** X9: no command clears or rewrites what [localStorage] holds.  The
    indexed commands, [compare] and [onunload] leave it as it is; the two
    commands behind the warning leave it as it is or store the flag
    [true] under the key [file-diff-merge-warning], and leave it as it
    is when the flag is stored already. *)
Theorem commands_keep_localStorage
    (activeFile : TFile) (i : nat) (w : World) :
  let untouched (c : M unit) := localStorage (snd (c w)) = localStorage w in
  let flagOnly (c : M unit) :=
    storageUpToFlag w (snd (c w))
    /\ (falsy (localStorage w !! fileDiffMergeWarningKey) = false ->
        localStorage (snd (c w)) = localStorage w) in
  untouched (compareIndexed host i)
  /\ untouched (compareTask host editor activeFile)
  /\ untouched onunload
  /\ flagOnly (findSyncConflictsAndMerge host)
  /\ flagOnly (proceedWithMerge host editor activeFile).
Proof.
  set (same := fun w w' : World => localStorage w' = localStorage w).
  assert (same_refl : forall w, same w w) by reflexivity.
  assert (same_trans : forall w1 w2 w3, same w1 w2 -> same w2 w3 -> same w1 w3)
    by (unfold same; congruence).
  assert (same_view : forall state, keeps same (openDifferencesView state))
    by (intros state w0; reflexivity).
  assert (upto_refl : forall w, storageUpToFlag w w) by (now left).
  assert (upto_set : keeps storageUpToFlag
                       (setItem fileDiffMergeWarningKey "true"))
    by (intros w0; now right).
  assert (upto_view : forall state,
             keeps storageUpToFlag (openDifferencesView state))
    by (intros state w0; now left).
  simpl. repeat split.
  - apply (keeps_compareIndexed same same_refl same_trans host i); auto.
  - apply (keeps_compareTask same same_refl same_trans host editor); auto.
  - apply (keeps_findSyncConflictsAndMerge storageUpToFlag upto_refl
             storageUpToFlag_trans host); auto.
  - intros Hset. unfold findSyncConflictsAndMerge, bind.
    rewrite (acknowledgmentGate_flag_set host w Hset).
    apply (keeps_reviewLoop same same_refl same_trans host); auto.
  - apply (keeps_proceedWithMerge storageUpToFlag upto_refl
             storageUpToFlag_trans host editor); auto.
  - intros Hset. unfold proceedWithMerge.
    rewrite (bind_returned _ _ _ _ _ (acknowledgmentGate_flag_set host w Hset)).
    refine (keeps_bind same same_trans _ _ _ _ w).
    + now apply keeps_getFileToCompare.
    + intros [f|]; [apply same_view | now apply keeps_ret].
Qed.

(** X10: the views a command opens are of its kind.  The indexed
    commands and [compare] open views without merge option and without
    continue callback; [compare-and-merge] and the review of the sync
    conflicts open views with the merge option, the review alone with a
    continue callback; [compare] and [compare-and-merge] show the file of
    the editor as the first file; [onunload] opens no view. *)
Theorem commands_open_views_of_their_kind (activeFile : TFile) (i : nat) :
  keeps (openedOnly readOnlyView) (compareIndexed host i)
  /\ keeps (openedOnly (fun state => readOnlyView state
                                     /\ file1 state = AFile activeFile))
       (compareTask host editor activeFile)
  /\ keeps (openedOnly (fun state => showMergeOption state = true
                                     /\ continueCallback state = None
                                     /\ file1 state = AFile activeFile))
       (proceedWithMerge host editor activeFile)
  /\ keeps (openedOnly (fun state => showMergeOption state = true
                                     /\ continueCallback state <> None))
       (findSyncConflictsAndMerge host)
  /\ keeps (openedOnly (fun _ => False)) onunload.
Proof.
  assert (Hrefl : forall P w, openedOnly P w w).
  { intros P w. exists []. split; [now rewrite app_nil_r | constructor]. }
  repeat split.
  - apply keeps_compareIndexed;
      [apply Hrefl | apply openedOnly_trans | | apply openedOnly_view].
    intros rest d. now apply openedOnly_same.
  - apply keeps_compareTask; [apply Hrefl | apply openedOnly_trans |].
    intros state Hro Hf. now apply openedOnly_view.
  - apply keeps_proceedWithMerge; [apply Hrefl | apply openedOnly_trans | |].
    + now apply openedOnly_same.
    + intros state Hm Hc Hf. now apply openedOnly_view.
  - apply keeps_findSyncConflictsAndMerge;
      [apply Hrefl | apply openedOnly_trans | |].
    + now apply openedOnly_same.
    + intros j syncConflict. now apply openedOnly_view.
  - now apply openedOnly_same.
Qed.

(** X11: the notices.  An indexed command shows notices that start with
    [File Diff Index i: ] for its own index and no others; the other
    commands and [onunload] show none. *)
Theorem commands_show_their_notices
    (activeFile : TFile) (i : nat) (w : World) :
  let silent (c : M unit) := notices (snd (c w)) = notices w in
  noticedOnly (indexPrefix i) w (snd (compareIndexed host i w))
  /\ silent (findSyncConflictsAndMerge host)
  /\ silent (compareTask host editor activeFile)
  /\ silent (proceedWithMerge host editor activeFile)
  /\ silent onunload.
Proof.
  set (same := fun w w' : World => notices w' = notices w).
  assert (same_refl : forall w, same w w) by reflexivity.
  assert (same_trans : forall w1 w2 w3, same w1 w2 -> same w2 w3 -> same w1 w3)
    by (unfold same; congruence).
  assert (same_view : forall state, keeps same (openDifferencesView state))
    by (intros state w0; reflexivity).
  assert (same_set : forall k v, keeps same (setItem k v))
    by (intros k v w0; reflexivity).
  simpl. split; [|repeat split].
  - apply (keeps_compareIndexed (noticedOnly (indexPrefix i))).
    + intros w0. exists []. split; [now rewrite app_nil_r | constructor].
    + apply noticedOnly_trans.
    + intros rest d w0. eexists. split; [reflexivity|].
      repeat constructor. now exists rest.
    + intros state _ w0. exists [].
      split; [now rewrite app_nil_r | constructor].
  - apply (keeps_findSyncConflictsAndMerge same same_refl same_trans host);
      auto.
  - apply (keeps_compareTask same same_refl same_trans host editor); auto.
  - apply (keeps_proceedWithMerge same same_refl same_trans host editor); auto.
Qed.

End FrameInstances.

(** ** More on the warning and the review *)

Section GateAndReviewMore.
Variable host : Host.

(** X15: once the warning is accepted the flag is stored as [true], and
    from then on the gate lets the command go on at once, without the
    dialog and without touching the world, whatever the dialog would
    answer. *)
Theorem acknowledgment_is_asked_once (w : World) :
  falsy (localStorage w !! fileDiffMergeWarningKey) = true ->
  riskyActionModal host = Accepted ->
  exists w1,
    acknowledgmentGate host w = (Returned true, w1)
    /\ localStorage w1 !! fileDiffMergeWarningKey = Some "true"
    /\ forall host', acknowledgmentGate host' w1 = (Returned true, w1).
Proof.
  intros Hunset Haccepted.
  rewrite (acknowledgmentGate_flag_unset host w Hunset), Haccepted.
  eexists. split; [reflexivity|].
  assert (Hstored : localStorage
                      {| localStorage :=
                           <[fileDiffMergeWarningKey := "true"]> (localStorage w);
                         workspace := workspace w;
                         notices := notices w;
                         opened := opened w |}
                    !! fileDiffMergeWarningKey = Some "true")
    by apply lookup_insert_eq.
  split; [exact Hstored|].
  intros host'. apply acknowledgmentGate_flag_set. now rewrite Hstored.
Qed.

(** X16: whatever the user answers, the views the review opens are those
    of the first pairs of the queue, in the order of the queue, each pair
    once: never more views than pairs, never a pair out of its turn. *)
Theorem review_opens_a_prefix (w : World) :
  exists k,
    k <= length (findSyncConflicts (vaultFiles host))
    /\ opened (snd (findSyncConflictsAndMerge host w))
       = (opened w
          ++ imap reviewState
               (take k (findSyncConflicts (vaultFiles host))))%list.
Proof.
  assert (Hloop : forall queue i w0,
             exists k, k <= length queue
                       /\ opened (snd (reviewLoop host i queue w0))
                          = (opened w0
                             ++ reviewStatesFrom i (take k queue))%list).
  { induction queue as [|syncConflict rest IH]; intros i w0.
    - exists 0. split; [reflexivity|]. simpl. now rewrite app_nil_r.
    - rewrite reviewLoop_step.
      destruct (continuation host i) as [[|]|].
      + destruct (IH (S i) (viewOpened (reviewState i syncConflict) w0))
          as (k & Hk & Hopened).
        exists (S k). split; [simpl; lia|].
        rewrite Hopened, opened_viewOpened. simpl take.
        rewrite reviewStatesFrom_cons. now rewrite <- app_assoc.
      + exists 1. split; [simpl; lia|]. simpl snd.
        rewrite opened_viewOpened. simpl take. rewrite take_0.
        now rewrite reviewStatesFrom_cons.
      + exists 1. split; [simpl; lia|]. simpl snd.
        rewrite opened_viewOpened. simpl take. rewrite take_0.
        now rewrite reviewStatesFrom_cons. }
  destruct (acknowledgmentGate host w) as [outcome w1] eqn:Hrun.
  destruct (acknowledgmentGate_quiet host w) as (Hquiet & _).
  rewrite Hrun in Hquiet. simpl in Hquiet.
  rewrite (findSyncConflictsAndMerge_gate host w _ _ Hrun).
  destruct outcome as [[|]| |];
    [|exists 0; split; [lia|]; simpl; now rewrite Hquiet, app_nil_r..].
  destruct (Hloop (findSyncConflicts (vaultFiles host)) 0 w1)
    as (k & Hk & Hopened).
  exists k. split; [exact Hk|]. now rewrite Hopened, Hquiet.
Qed.

(** X17: the review waits for the view.  When the continue callback of
    pair [i] is never called, the callbacks before it being called with
    [true], the command never returns: it stays at the [await] of pair
    [i], with the views of the first [i + 1] pairs opened and none after. *)
Theorem review_waits_for_the_callback (w : World) (i : nat) :
  fst (acknowledgmentGate host w) = Returned true ->
  i < length (findSyncConflicts (vaultFiles host)) ->
  (forall j, j < i -> continuation host j = Some true) ->
  continuation host i = None ->
  fst (findSyncConflictsAndMerge host w) = Suspended
  /\ opened (snd (findSyncConflictsAndMerge host w))
     = (opened w
        ++ imap reviewState
             (take (S i) (findSyncConflicts (vaultFiles host))))%list.
Proof.
  assert (Hloop : forall queue k w0 d,
             d < length queue ->
             (forall j, j < d -> continuation host (k + j) = Some true) ->
             continuation host (k + d) = None ->
             fst (reviewLoop host k queue w0) = Suspended
             /\ opened (snd (reviewLoop host k queue w0))
                = (opened w0 ++ reviewStatesFrom k (take (S d) queue))%list).
  { induction queue as [|syncConflict rest IH]; intros k w0 d Hlen Htrue Hd.
    - simpl in Hlen. lia.
    - rewrite reviewLoop_step. destruct d as [|d].
      + rewrite Nat.add_0_r in Hd. rewrite Hd. split; [reflexivity|].
        simpl snd. rewrite opened_viewOpened. simpl take. rewrite take_0.
        now rewrite reviewStatesFrom_cons.
      + pose proof (Htrue 0 ltac:(lia)) as H0.
        rewrite Nat.add_0_r in H0. rewrite H0.
        destruct (IH (S k) (viewOpened (reviewState k syncConflict) w0) d)
          as (Hout & Hopened).
        { simpl in Hlen. lia. }
        { intros j Hj. replace (S k + j) with (k + S j) by lia.
          apply Htrue. lia. }
        { now replace (S k + d) with (k + S d) by lia. }
        split; [exact Hout|].
        rewrite Hopened, opened_viewOpened. simpl take.
        rewrite (reviewStatesFrom_cons k). now rewrite <- app_assoc. }
  intros Hgate Hlen Htrue Hnone.
  destruct (acknowledgmentGate host w) as [outcome w1] eqn:Hrun.
  destruct (acknowledgmentGate_quiet host w) as (Hquiet & _).
  rewrite Hrun in Hquiet. simpl in Hquiet, Hgate. subst outcome.
  rewrite (findSyncConflictsAndMerge_gate host w _ _ Hrun).
  destruct (Hloop (findSyncConflicts (vaultFiles host)) 0 w1 i Hlen Htrue Hnone)
    as (Hout & Hopened).
  split; [exact Hout|]. now rewrite Hopened, Hquiet.
Qed.

(** X18: the first use.  With no flag stored, the warning accepted and
    every continue callback called with [true], the command stores the
    flag, opens the view of every pair in the order of the queue, and
    returns; nothing else of [localStorage] changes.  The [j]-th view
    shows the original of the [j]-th pair as the first file and its
    conflict file as the second, with the merge option. *)
Theorem first_review_stores_the_flag (w : World) :
  falsy (localStorage w !! fileDiffMergeWarningKey) = true ->
  riskyActionModal host = Accepted ->
  (forall i, i < length (findSyncConflicts (vaultFiles host)) ->
             continuation host i = Some true) ->
  exists w',
    findSyncConflictsAndMerge host w = (Returned tt, w')
    /\ localStorage w'
       = <[fileDiffMergeWarningKey := "true"]> (localStorage w)
    /\ opened w'
       = (opened w
          ++ imap (fun j pair =>
                     {| file1 := AFile (originalFile pair);
                        file2 := AFile (syncConflictFile pair);
                        showMergeOption := true;
                        continueCallback := Some j |})
               (findSyncConflicts (vaultFiles host)))%list.
Proof.
  intros Hunset Haccepted Htrue.
  pose proof (acknowledgmentGate_flag_unset host w Hunset) as Hgate.
  rewrite Haccepted in Hgate.
  destruct (acknowledgmentGate host w) as [outcome w1] eqn:Hrun.
  injection Hgate as -> Hw1.
  rewrite (findSyncConflictsAndMerge_gate host w _ _ Hrun).
  destruct (reviewLoop_continue_all host
              (findSyncConflicts (vaultFiles host)) 0 w1 Htrue)
    as (w' & Hloop & Hopened).
  exists w'. split; [exact Hloop|]. split.
  - assert (Hsame : keeps (fun w0 w2 : World =>
                             localStorage w2 = localStorage w0)
                      (reviewLoop host 0
                         (findSyncConflicts (vaultFiles host)))).
    { apply keeps_reviewLoop; [reflexivity | congruence |].
      intros j syncConflict w0. reflexivity. }
    specialize (Hsame w1). rewrite Hloop in Hsame. simpl in Hsame.
    rewrite Hsame, Hw1. reflexivity.
  - rewrite Hopened, Hw1. reflexivity.
Qed.

End GateAndReviewMore.

Lemma acknowledgment_is_asked_once_witness :
  let host := reviewHost conflictVault Accepted (fun _ => Some true) in
  falsy (localStorage freshWorld !! fileDiffMergeWarningKey) = true
  /\ riskyActionModal host = Accepted
  /\ exists w1,
       acknowledgmentGate host freshWorld = (Returned true, w1)
       /\ localStorage w1 !! fileDiffMergeWarningKey = Some "true"
       /\ forall host', acknowledgmentGate host' w1 = (Returned true, w1).
Proof.
  intros host. split; [reflexivity|]. split; [reflexivity|].
  apply (acknowledgment_is_asked_once host freshWorld); reflexivity.
Defined.

Lemma review_waits_for_the_callback_witness :
  let host :=
    reviewHost conflictVault Dismissed
      (fun i => if (i =? 0)%nat then Some true else None) in
  fst (acknowledgmentGate host acknowledgedWorld) = Returned true
  /\ continuation host 1 = None
  /\ fst (findSyncConflictsAndMerge host acknowledgedWorld) = Suspended
  /\ opened (snd (findSyncConflictsAndMerge host acknowledgedWorld))
     = (opened acknowledgedWorld
        ++ imap reviewState
             (take 2 (findSyncConflicts (vaultFiles host))))%list.
Proof.
  intros host. split; [reflexivity|]. split; [reflexivity|].
  apply (review_waits_for_the_callback host acknowledgedWorld 1).
  - reflexivity.
  - vm_compute. lia.
  - intros j Hj. assert (j = 0) as -> by lia. reflexivity.
  - reflexivity.
Defined.

Lemma first_review_stores_the_flag_witness :
  let host := reviewHost conflictVault Accepted (fun _ => Some true) in
  falsy (localStorage freshWorld !! fileDiffMergeWarningKey) = true
  /\ riskyActionModal host = Accepted
  /\ exists w',
       findSyncConflictsAndMerge host freshWorld = (Returned tt, w')
       /\ localStorage w' !! fileDiffMergeWarningKey = Some "true"
       /\ opened w'
          = [ {| file1 := AFile (note "Notes.md");
                 file2 := AFile
                            (note "Notes.sync-conflict-20240101-120000-ABC123.md");
                 showMergeOption := true;
                 continueCallback := Some 0 |};
              {| file1 := AFile (note "Notes.md");
                 file2 := AFile
                            (note "Notes.sync-conflict-20240102-130000-DEF456.md");
                 showMergeOption := true;
                 continueCallback := Some 1 |} ].
Proof.
  intros host. split; [reflexivity|]. split; [reflexivity|].
  destruct (first_review_stores_the_flag host freshWorld)
    as (w' & Hrun & Hstore & Hopened);
    [reflexivity | reflexivity | reflexivity |].
  exists w'. split; [exact Hrun|]. split.
  - rewrite Hstore. apply lookup_insert_eq.
  - rewrite Hopened. vm_compute. reflexivity.
Defined.

(** ** More on the workspace *)

Section WorkspaceMore.

Lemma filter_filter {A} (f : A -> bool) (l : list A) :
  List.filter f (List.filter f l) = List.filter f l.
Proof.
  induction l as [|x l IH]; simpl; [reflexivity|].
  destruct (f x) eqn:E; simpl; [rewrite E|]; now rewrite IH.
Qed.

Lemma otherLeaves_filter ws :
  otherLeaves ws
  = List.filter
      (fun l => negb (ViewType_eqb (leaf_type l) VIEW_TYPE_DIFFERENCES))
      (leaves ws).
Proof. reflexivity. Qed.

Lemma otherLeaves_viewOpened state w :
  wfWorkspace (workspace w) ->
  otherLeaves (workspace (viewOpened state w)) = otherLeaves (workspace w).
Proof.
  intros Hwf. rewrite (otherLeaves_filter (workspace (viewOpened state w))).
  rewrite (leaves_viewOpened state w Hwf), List.filter_app. simpl.
  rewrite app_nil_r. fold (otherLeaves (workspace w)).
  rewrite (otherLeaves_filter (workspace w)). apply filter_filter.
Qed.

Lemma wfWorkspace_viewsOpened states : forall w,
  wfWorkspace (workspace w) -> wfWorkspace (workspace (viewsOpened states w)).
Proof.
  unfold viewsOpened.
  induction states as [|state states IH]; intros w Hwf; simpl; [exact Hwf|].
  apply IH. now apply wfWorkspace_viewOpened.
Qed.

Lemma opened_viewsOpened states : forall w,
  opened (viewsOpened states w) = (opened w ++ states)%list.
Proof.
  unfold viewsOpened.
  induction states as [|state states IH]; intros w; simpl.
  - now rewrite app_nil_r.
  - rewrite IH, opened_viewOpened. now rewrite <- app_assoc.
Qed.

(** X19: however many views are opened one after the other, in the end
    exactly one leaf shows a differences view: it holds the state of the
    last call and has the focus. *)
Theorem last_view_is_the_only_one
    (w : World) (earlier : list ViewState) (last : ViewState) :
  wfWorkspace (workspace w) ->
  exists leaf,
    differencesLeaves (workspace (viewsOpened (earlier ++ [last]) w)) = [leaf]
    /\ leaf_state leaf = Some last
    /\ active_leaf (workspace (viewsOpened (earlier ++ [last]) w))
       = Some (leaf_id leaf)
    /\ opened (viewsOpened (earlier ++ [last]) w)
       = (opened w ++ earlier ++ [last])%list.
Proof.
  intros Hwf. rewrite opened_viewsOpened.
  unfold viewsOpened. rewrite fold_left_app. simpl.
  fold (viewsOpened earlier w).
  destruct (differencesLeaves_viewOpened last (viewsOpened earlier w))
    as [Hone Hactive]; [now apply wfWorkspace_viewsOpened|].
  eexists. split; [exact Hone|]. now repeat split.
Qed.

Lemma last_view_is_the_only_one_witness :
  let first := reviewState 0 {| originalFile := notesFile;
                                syncConflictFile := markedNote |} in
  let second := reviewState 1 {| originalFile := notesFile;
                                 syncConflictFile := notesFile |} in
  let third := reviewState 2 {| originalFile := markedNote;
                                syncConflictFile := notesFile |} in
  wfWorkspace (workspace freshWorld)
  /\ exists leaf,
       differencesLeaves
         (workspace (viewsOpened ([first; second] ++ [third]) freshWorld))
       = [leaf]
       /\ leaf_state leaf = Some third
       /\ active_leaf
            (workspace (viewsOpened ([first; second] ++ [third]) freshWorld))
          = Some (leaf_id leaf)
       /\ opened (viewsOpened ([first; second] ++ [third]) freshWorld)
          = (opened freshWorld ++ [first; second] ++ [third])%list.
Proof.
  intros first second third. split; [constructor|].
  apply (last_view_is_the_only_one freshWorld [first; second] third).
  constructor.
Defined.

(** X20: opening a view leaves the leaves that show something else as
    they are and in their order; the leaves after the call are those and
    one new leaf, so a differences view never piles up on another. *)
Theorem other_leaves_stay (w : World) (state : ViewState) :
  wfWorkspace (workspace w) ->
  otherLeaves (workspace (viewOpened state w)) = otherLeaves (workspace w)
  /\ length (leaves (workspace (viewOpened state w)))
     = S (length (otherLeaves (workspace w)))
  /\ length (leaves (workspace (viewOpened state w)))
     <= S (length (leaves (workspace w))).
Proof.
  intros Hwf. split; [now apply otherLeaves_viewOpened|].
  rewrite (leaves_viewOpened state w Hwf), length_app.
  change (leaves (detachLeavesOfType VIEW_TYPE_DIFFERENCES (workspace w)))
    with (otherLeaves (workspace w)).
  change (length [ _ ]) with 1.
  pose proof (List.filter_length_le
                (fun l => negb (ViewType_eqb (leaf_type l)
                                  VIEW_TYPE_DIFFERENCES))
                (leaves (workspace w))) as Hle.
  rewrite <- otherLeaves_filter in Hle. lia.
Qed.

Lemma other_leaves_stay_witness :
  let w := viewOpened (reviewState 0 {| originalFile := notesFile;
                                        syncConflictFile := markedNote |})
             freshWorld in
  let state := reviewState 1 {| originalFile := notesFile;
                                syncConflictFile := notesFile |} in
  wfWorkspace (workspace w)
  /\ otherLeaves (workspace (viewOpened state w)) = otherLeaves (workspace w)
  /\ length (leaves (workspace (viewOpened state w))) = 1.
Proof.
  intros w state.
  assert (Hwf : wfWorkspace (workspace w)) by (repeat constructor).
  split; [exact Hwf|].
  destruct (other_leaves_stay w state Hwf) as (Hother & Hlen & _).
  split; [exact Hother | exact Hlen].
Defined.

(** X21: [onunload] closes every differences view and nothing else; run
    after a view was opened, it leaves the leaves that were there before
    and showed something else. *)
Theorem onunload_closes_the_views (w : World) (state : ViewState) :
  fst (onunload w) = Returned tt
  /\ differencesLeaves (workspace (snd (onunload w))) = []
  /\ leaves (workspace (snd (onunload w))) = otherLeaves (workspace w)
  /\ (wfWorkspace (workspace w) ->
      leaves (workspace (snd (onunload (viewOpened state w))))
      = otherLeaves (workspace w)).
Proof.
  split; [reflexivity|]. split; [apply differencesLeaves_detach|].
  split; [reflexivity|].
  intros Hwf. change (leaves (workspace (snd (onunload (viewOpened state w)))))
    with (otherLeaves (workspace (viewOpened state w))).
  now apply otherLeaves_viewOpened.
Qed.

End WorkspaceMore.

(** ** The commands [compare] and [compare-and-merge] *)

Section CompareCommands.
Variable host : Host.
Variable editor : Editor.

Lemma arrayRemove_In (target f : TFile) (files : list TFile) :
  In f (arrayRemove target files) <-> In f files /\ f <> target.
Proof.
  unfold arrayRemove. rewrite filter_In, negb_true_iff, bool_decide_eq_false.
  reflexivity.
Qed.

(** What is done once the dialog has answered, [merge] telling which of
    the two commands runs. *)
Lemma picked_file_run (merge : bool) (activeFile : TFile) (w : World) :
  (compareFile <- getFileToCompare host editor activeFile;;
   match compareFile with
   | None => ret tt
   | Some compareFile =>
       openDifferencesView {| file1 := AFile activeFile;
                              file2 := AFile compareFile;
                              showMergeOption := merge;
                              continueCallback := None |}
   end) w
  = match selectFileModal editor (arrayRemove activeFile (vaultFiles host)) with
    | Chosen (Some compareFile) =>
        (Returned tt,
         viewOpened {| file1 := AFile activeFile;
                       file2 := AFile compareFile;
                       showMergeOption := merge;
                       continueCallback := None |} w)
    | Chosen None => (Returned tt, w)
    | SelectFailed e => (Threw e, w)
    | SelectDismissed => (Suspended, w)
    end.
Proof.
  unfold bind, getFileToCompare, showSelectOtherFileModal.
  now destruct (selectFileModal editor _) as [[f|]|e|].
Qed.

(** X22: the command [compare].  Without a file in the editor it is not
    available and does nothing.  With one it is available; asked only
    whether it is, it does nothing; run, it offers the files of the vault
    but the one of the editor and opens the view of that file against the
    chosen one, without merge option; when nothing is chosen it does
    nothing, an error of the dialog is thrown and no view is opened, and
    a dialog that does not answer leaves it waiting. *)
Theorem compare_runs (checking : bool) (w : World) :
  match getActiveFile editor with
  | None =>
      fst (compareCommand host editor checking) = false
      /\ snd (compareCommand host editor checking) w = (Returned tt, w)
  | Some activeFile =>
      fst (compareCommand host editor checking) = true
      /\ snd (compareCommand host editor true) w = (Returned tt, w)
      /\ snd (compareCommand host editor false) w
         = match selectFileModal editor
                   (arrayRemove activeFile (vaultFiles host)) with
           | Chosen (Some compareFile) =>
               (Returned tt,
                viewOpened {| file1 := AFile activeFile;
                              file2 := AFile compareFile;
                              showMergeOption := false;
                              continueCallback := None |} w)
           | Chosen None => (Returned tt, w)
           | SelectFailed e => (Threw e, w)
           | SelectDismissed => (Suspended, w)
           end
  end.
Proof.
  unfold compareCommand, checkCallback.
  destruct (getActiveFile editor) as [activeFile|]; [|now split].
  split; [reflexivity|]. split; [reflexivity|].
  simpl. unfold compareTask. apply (picked_file_run false).
Qed.

(** X23: [compare-and-merge] stands behind the warning.  What it does
    after the gate is what [compare] does, with the merge option; when
    the gate does not let it go on, the dialog of the files is not what
    decides: with no flag stored and the warning not accepted, the world
    is as it was and the command has not returned. *)
Theorem compareAndMerge_behind_the_warning (activeFile : TFile) (w : World) :
  match acknowledgmentGate host w with
  | (Returned true, w1) =>
      proceedWithMerge host editor activeFile w
      = match selectFileModal editor
                (arrayRemove activeFile (vaultFiles host)) with
        | Chosen (Some compareFile) =>
            (Returned tt,
             viewOpened {| file1 := AFile activeFile;
                           file2 := AFile compareFile;
                           showMergeOption := true;
                           continueCallback := None |} w1)
        | Chosen None => (Returned tt, w1)
        | SelectFailed e => (Threw e, w1)
        | SelectDismissed => (Suspended, w1)
        end
  | (Returned false, w1) =>
      proceedWithMerge host editor activeFile w = (Returned tt, w1)
  | (Threw e, w1) =>
      proceedWithMerge host editor activeFile w = (Threw e, w1)
  | (Suspended, w1) =>
      proceedWithMerge host editor activeFile w = (Suspended, w1)
  end
  /\ (falsy (localStorage w !! fileDiffMergeWarningKey) = true ->
      riskyActionModal host <> Accepted ->
      snd (proceedWithMerge host editor activeFile w) = w
      /\ fst (proceedWithMerge host editor activeFile w) <> Returned tt).
Proof.
  split.
  - destruct (acknowledgmentGate host w) as [[[|]|e|] w1] eqn:Hgate;
      unfold proceedWithMerge;
      [rewrite (bind_returned _ _ _ _ _ Hgate); apply (picked_file_run true)
      | unfold bind; now rewrite Hgate ..].
  - intros Hunset Hmodal. unfold proceedWithMerge, bind.
    rewrite (acknowledgmentGate_flag_unset host w Hunset).
    destruct (riskyActionModal host); [congruence | now split ..].
Qed.

(** [compare-and-merge] gets to the dialog of the files in a world that
    has the views of before, or opens no view. *)
Lemma proceedWithMerge_cases (activeFile : TFile) (w : World) :
  (exists w1,
     opened w1 = opened w
     /\ proceedWithMerge host editor activeFile w
        = (compareFile <- getFileToCompare host editor activeFile;;
           match compareFile with
           | None => ret tt
           | Some compareFile =>
               openDifferencesView {| file1 := AFile activeFile;
                                      file2 := AFile compareFile;
                                      showMergeOption := true;
                                      continueCallback := None |}
           end) w1)
  \/ opened (snd (proceedWithMerge host editor activeFile w)) = opened w.
Proof.
  destruct (acknowledgmentGate_quiet host w) as (Hquiet & _).
  unfold proceedWithMerge.
  destruct (acknowledgmentGate host w) as [[[|]|e|] w1] eqn:Hgate;
    simpl in Hquiet.
  - left. exists w1. split; [exact Hquiet|].
    now rewrite (bind_returned _ _ _ _ _ Hgate).
  - right. unfold bind. now rewrite Hgate.
  - right. unfold bind. now rewrite Hgate.
  - right. unfold bind. now rewrite Hgate.
Qed.

(** X24: a file is never shown against itself by [compare] or
    [compare-and-merge], provided the dialog hands back a file of the
    list it was given: the file of the editor was taken off that list.
    The views they open show the file of the editor against another file
    of the vault. *)
Theorem compare_never_shows_a_file_against_itself
    (activeFile : TFile) (w : World) :
  (forall files f, selectFileModal editor files = Chosen (Some f) ->
                   In f files) ->
  let other (state : ViewState) :=
    file1 state = AFile activeFile
    /\ file2 state <> file1 state
    /\ exists f, In f (vaultFiles host) /\ file2 state = AFile f in
  openedOnly other w (snd (compareTask host editor activeFile w))
  /\ openedOnly other w (snd (proceedWithMerge host editor activeFile w)).
Proof.
  intros Hpick other.
  assert (Hrefl : forall w0, openedOnly other w0 w0).
  { intros w0. exists []. split; [now rewrite app_nil_r | constructor]. }
  assert (Hpicked : forall merge w0,
             openedOnly other w0
               (snd ((compareFile <- getFileToCompare host editor activeFile;;
                      match compareFile with
                      | None => ret tt
                      | Some compareFile =>
                          openDifferencesView
                            {| file1 := AFile activeFile;
                               file2 := AFile compareFile;
                               showMergeOption := merge;
                               continueCallback := None |}
                      end) w0))).
  { intros merge w0. rewrite picked_file_run.
    destruct (selectFileModal editor _) as [[f|]|e|] eqn:Hsel;
      [|apply Hrefl ..].
    apply Hpick, arrayRemove_In in Hsel as [Hin Hne].
    exists [ {| file1 := AFile activeFile; file2 := AFile f;
                showMergeOption := merge; continueCallback := None |} ].
    split; [reflexivity|]. constructor; [|constructor].
    split; [reflexivity|]. split; [simpl; congruence|]. now exists f. }
  split; [apply (Hpicked false)|].
  destruct (proceedWithMerge_cases activeFile w)
    as [(w1 & Hquiet & Hrun)|Hopened].
  - rewrite Hrun. destruct (Hpicked true w1) as (more & Hmore & Hall).
    exists more. split; [now rewrite Hmore, Hquiet | exact Hall].
  - exists []. split; [now rewrite Hopened, app_nil_r | constructor].
Qed.

End CompareCommands.

Lemma compare_never_shows_a_file_against_itself_witness :
  let host := reviewHost conflictVault Dismissed (fun _ => None) in
  let editor := firstPick (Some (note "Notes.md")) in
  (forall files f, selectFileModal editor files = Chosen (Some f) ->
                   In f files)
  /\ opened (snd (compareTask host editor (note "Notes.md") freshWorld))
     = [ {| file1 := AFile (note "Notes.md");
            file2 := AFile
                       (note "Notes.sync-conflict-20240101-120000-ABC123.md");
            showMergeOption := false;
            continueCallback := None |} ]
  /\ exists more,
       opened (snd (compareTask host editor (note "Notes.md") freshWorld))
       = (opened freshWorld ++ more)%list
       /\ Forall (fun state => file2 state <> file1 state) more.
Proof.
  intros host editor.
  assert (Hpick : forall files f,
             selectFileModal editor files = Chosen (Some f) -> In f files).
  { intros [|g files] f [= <-]. now left. }
  split; [exact Hpick|]. split; [reflexivity|].
  destruct (compare_never_shows_a_file_against_itself host editor
              (note "Notes.md") freshWorld Hpick)
    as [(more & Hmore & Hall) _].
  exists more. split; [exact Hmore|].
  eapply List.Forall_impl; [|exact Hall]. now intros state (_ & Hne & _).
Defined.

Lemma compareAndMerge_behind_the_warning_witness :
  falsy (localStorage freshWorld !! fileDiffMergeWarningKey) = true
  /\ snd (proceedWithMerge
            (reviewHost conflictVault Dismissed (fun _ => None))
            (firstPick (Some (note "Notes.md"))) (note "Notes.md") freshWorld)
     = freshWorld.
Proof.
  split; [reflexivity|].
  destruct (compareAndMerge_behind_the_warning
              (reviewHost conflictVault Dismissed (fun _ => None))
              (firstPick (Some (note "Notes.md"))) (note "Notes.md") freshWorld)
    as [_ H].
  destruct H as [H _]; [reflexivity | discriminate | exact H].
Defined.

(** ** The names of the commands and of the spec files *)

Section Names.
Import JsStringFacts.

Lemma append_inj_r (a b c : string) : a ++ c = b ++ c -> a = b.
Proof.
  revert b. induction a as [|x a IH]; intros [|y b] H; simpl in H.
  - reflexivity.
  - apply (f_equal String.length) in H. simpl in H.
    rewrite length_append in H. lia.
  - apply (f_equal String.length) in H. simpl in H.
    rewrite length_append in H. lia.
  - injection H as -> H. f_equal. now apply IH.
Qed.

Lemma indexText_inj (i j : nat) : indexText i = indexText j -> i = j.
Proof.
  assert (Hnonnil : forall n, Nat.to_uint n <> Decimal.Nil).
  { intros n. rewrite <- (DecimalNat.Unsigned.of_to n) at 1.
    rewrite DecimalNat.Unsigned.to_of. apply DecimalFacts.unorm_nonnil. }
  unfold indexText. intros H%(f_equal NilZero.uint_of_string).
  rewrite !NilZero.usu in H by apply Hnonnil.
  injection H as H. now apply DecimalNat.Unsigned.to_uint_inj.
Qed.

(** X28: no two indexes share a spec file or a command: the path of the
    spec and the identifier of the command tell the index, for every
    index written in decimal, and the thirteen identifiers that [onload]
    registers are all different. *)
Theorem commands_are_told_apart :
  (forall i j, specPath i = specPath j -> i = j)
  /\ (forall i j, "compare-indexed-" ++ indexText i
                  = "compare-indexed-" ++ indexText j -> i = j)
  /\ NoDup commandIds
  /\ length commandIds = 13.
Proof.
  split; [|split; [|split]].
  - intros i j H. unfold specPath in H.
    apply (inj (String.app _)), append_inj_r in H. now apply indexText_inj.
  - intros i j H. apply (inj (String.app _)) in H. now apply indexText_inj.
  - refine (bool_decide_unpack _ _). vm_compute. exact I.
  - reflexivity.
Qed.

End Names.

Lemma originalFileName_trailing_tag_witness :
  conflictTag ".sync-conflict-20240101-120000-ABC123"
  /\ originalFileName "Notes.md.sync-conflict-20240101-120000-ABC123"
     = "Notes.md".
Proof.
  assert (Htag : conflictTag ".sync-conflict-20240101-120000-ABC123").
  { exists "20240101", "120000", "ABC123". repeat split. discriminate. }
  split; [exact Htag|].
  apply (originalFileName_trailing_tag "Notes.md"
           ".sync-conflict-20240101-120000-ABC123" Htag).
  intros p1 q1 H Hne.
  repeat (destruct p1 as [|? p1]; simpl in H;
          [subst q1; first [reflexivity | congruence]
          | first [discriminate H | injection H as _ H]]).
Defined.

Lemma findSyncConflicts_pair_witness :
  let pair :=
    {| originalFile := note "Notes.md";
       syncConflictFile :=
         note "Notes.sync-conflict-20240101-120000-ABC123.md" |} in
  In pair (findSyncConflicts conflictVault)
  /\ JsString.includes "sync-conflict" (name (syncConflictFile pair)) = true
  /\ originalFileName (name (syncConflictFile pair)) = name (originalFile pair)
  /\ parentPath (syncConflictFile pair) = parentPath (originalFile pair).
Proof.
  intros pair.
  assert (Hin : In pair (findSyncConflicts conflictVault))
    by (vm_compute; auto).
  split; [exact Hin|].
  exact (findSyncConflicts_pair conflictVault pair Hin).
Defined.
